(** * PlantGuardian: the telemetry server, embedded and verified

    A shallow embedding of the Express server of the repository (the
    handlers of [/data], [/servo], [/servo-check], [/data/history] and
    [/logs], the helpers of [mongodb.js], and the Next.js route
    [app/api/servo/route.ts]) together with the JavaScript primitives
    they call.

    Conventions.
    - A JavaScript string is a [string]: a sequence of code units below
      256.  White space is the part of ECMAScript's WhiteSpace and
      LineTerminator sets that lies in that range.
    - A JavaScript Number is a [number]: [NaN], a signed infinity, or a
      signed decimal [m * 10^e].  [Finite neg m e] stands for the double
      nearest to that decimal; the final rounding, and with it the
      overflow of a huge decimal to an infinity, is not modelled.
    - An instant ([new Date()], an ISO time stamp) is its time value, a [Z].
    - Code that assigns to shared state and can raise runs in the monad
      [M]. *)

From Stdlib Require Import ZArith NArith List Bool Ascii String Lia.
From Stdlib Require Import Permutation Sorted.
Import ListNotations.

Local Open Scope string_scope.
Local Open Scope list_scope.

(** ** Mutable state and exceptions

    A statement runs on a state [S] and either completes with a result or
    raises; in both cases the assignments made so far remain. *)

Inductive result (S A : Type) : Type :=
| Ok (a : A) (s : S)
| Throw (msg : string) (s : S).

Arguments Ok {S A} a s.
Arguments Throw {S A} msg s.

Definition M (S A : Type) : Type := S -> result S A.

Definition ret {S A : Type} (a : A) : M S A := fun s => Ok a s.

Definition throw {S A : Type} (msg : string) : M S A := fun s => Throw msg s.

Definition bind {S A B : Type} (c : M S A) (k : A -> M S B) : M S B :=
  fun s =>
    match c s with
    | Ok a s' => k a s'
    | Throw m s' => Throw m s'
    end.

Definition assign {S : Type} (f : S -> S) : M S unit := fun s => Ok tt (f s).

Notation "x <- c ;; k" := (bind c (fun x => k))
  (at level 61, c at next level, right associativity).
Notation "c ;;; k" := (bind c (fun _ => k))
  (at level 61, right associativity).

(** The state a statement leaves behind, however it ends. *)
Definition final_state {S A : Type} (r : result S A) : S :=
  match r with
  | Ok _ s => s
  | Throw _ s => s
  end.

Definition raised {S A : Type} (r : result S A) : bool :=
  match r with
  | Ok _ _ => false
  | Throw _ _ => true
  end.

(** ** JavaScript primitives *)

Module JS.

(** Numbers. *)
Inductive number : Type :=
| NaN
| Infinity (neg : bool)
| Finite (neg : bool) (m : N) (e : Z).

(** ToBoolean on a Number: [NaN], [+0] and [-0] are falsy. *)
Definition truthy (x : number) : bool :=
  match x with
  | NaN => false
  | Infinity _ => true
  | Finite _ m _ => negb (N.eqb m 0)
  end.

(** [x || d] on Numbers. *)
Definition or_default (x d : number) : number :=
  if truthy x then x else d.

Definition of_Z (z : Z) : number := Finite (Z.ltb z 0) (Z.abs_N z) 0.

(** The integer a Number denotes; the server only asks for it after
    [parseInt(..) || d], whose results have exponent 0. *)
Definition to_int (x : number) : Z :=
  match x with
  | Finite neg m 0 => if neg then (- Z.of_N m)%Z else Z.of_N m
  | _ => 0%Z
  end.

(** [m * 10^e] against the integer [k], brought to a common scale. *)
Definition scaled (neg : bool) (m : N) (e k : Z) : Z * Z :=
  let sm := if neg then (- Z.of_N m)%Z else Z.of_N m in
  if (0 <=? e)%Z then ((sm * 10 ^ e)%Z, k) else (sm, (k * 10 ^ (- e))%Z).

(** [x < k] and [x > k] for an integer [k]; false on [NaN]. *)
Definition lt_int (x : number) (k : Z) : bool :=
  match x with
  | NaN => false
  | Infinity neg => neg
  | Finite neg m e => let '(a, b) := scaled neg m e k in (a <? b)%Z
  end.

Definition gt_int (x : number) (k : Z) : bool :=
  match x with
  | NaN => false
  | Infinity neg => negb neg
  | Finite neg m e => let '(a, b) := scaled neg m e k in (b <? a)%Z
  end.

(** Values that a JSON body or an object property can hold. *)
Inductive value : Type :=
| VUndefined
| VNull
| VBool (b : bool)
| VNum (n : number)
| VStr (s : string).

Definition is_undefined (v : value) : bool :=
  match v with VUndefined => true | _ => false end.

(** White space as [String.prototype.trim] and the numeric parsers see it:
    TAB, LF, VT, FF, CR, SP and NBSP. *)
Definition is_whitespace (c : ascii) : bool :=
  let n := nat_of_ascii c in
  (Nat.eqb n 9 || Nat.eqb n 10 || Nat.eqb n 11 || Nat.eqb n 12
   || Nat.eqb n 13 || Nat.eqb n 32 || Nat.eqb n 160)%bool.

Fixpoint trimStart (s : string) : string :=
  match s with
  | String c r => if is_whitespace c then trimStart r else s
  | EmptyString => EmptyString
  end.

Fixpoint trimEnd (s : string) : string :=
  match s with
  | String c r =>
      let r' := trimEnd r in
      if (is_whitespace c && String.eqb r' "")%bool then "" else String c r'
  | EmptyString => EmptyString
  end.

(** [s.trim()] *)
Definition trim (s : string) : string := trimEnd (trimStart s).

(** [s.includes(c)] for a one-character needle. *)
Fixpoint includes (c : ascii) (s : string) : bool :=
  match s with
  | String d r => (Ascii.eqb d c || includes c r)%bool
  | EmptyString => false
  end.

(** [s.split(c)] for a one-character separator: never empty. *)
Fixpoint split (c : ascii) (s : string) : list string :=
  match s with
  | EmptyString => [""]
  | String d r =>
      if Ascii.eqb d c then "" :: split c r
      else match split c r with
           | h :: t => String d h :: t
           | [] => [String d ""]
           end
  end.

(** [a.join(c)] *)
Fixpoint join (c : ascii) (l : list string) : string :=
  match l with
  | [] => ""
  | [s] => s
  | s :: t => (s ++ String c (join c t))%string
  end.

(** [s.startsWith(p)]: the rest of [s] after [p], if [p] is a prefix. *)
Fixpoint strip_prefix (p s : string) : option string :=
  match p, s with
  | EmptyString, _ => Some s
  | String a p', String b s' =>
      if Ascii.eqb a b then strip_prefix p' s' else None
  | String _ _, EmptyString => None
  end.

Definition dec_digit (c : ascii) : option N :=
  let n := N_of_ascii c in
  if ((48 <=? n) && (n <=? 57))%N then Some (n - 48)%N else None.

Definition hex_digit (c : ascii) : option N :=
  let n := N_of_ascii c in
  if ((48 <=? n) && (n <=? 57))%N then Some (n - 48)%N
  else if ((97 <=? n) && (n <=? 102))%N then Some (n - 87)%N
  else if ((65 <=? n) && (n <=? 70))%N then Some (n - 55)%N
  else None.

(** The longest run of digits at the head of [s]: its value on top of
    [acc], how many digits it has, and what follows it. *)
Fixpoint scan_digits (digit : ascii -> option N) (radix acc : N) (cnt : nat)
    (s : string) : N * nat * string :=
  match s with
  | String c r =>
      match digit c with
      | Some d => scan_digits digit radix (acc * radix + d)%N (S cnt) r
      | None => (acc, cnt, s)
      end
  | EmptyString => (acc, cnt, s)
  end.

(** An optional sign at the head of [s]. *)
Definition scan_sign (s : string) : bool * string :=
  match s with
  | String "-" r => (true, r)
  | String "+" r => (false, r)
  | _ => (false, s)
  end.

(** [parseInt(s)] with no radix argument. *)
Definition parseInt (s : string) : number :=
  let '(neg, s1) := scan_sign (trimStart s) in
  let '(radix, digit, s2) :=
    match s1 with
    | String "0" (String "x" r) => (16%N, hex_digit, r)
    | String "0" (String "X" r) => (16%N, hex_digit, r)
    | _ => (10%N, dec_digit, s1)
    end in
  let '(m, cnt, _) := scan_digits digit radix 0%N 0 s2 in
  match cnt with
  | O => NaN
  | S _ => Finite neg m 0
  end.

(** The exponent part of a decimal literal, if one is complete. *)
Definition scan_exponent (s : string) : Z :=
  match s with
  | String c r =>
      if (Ascii.eqb c "e" || Ascii.eqb c "E")%bool then
        let '(eneg, r1) := scan_sign r in
        let '(x, cnt, _) := scan_digits dec_digit 10%N 0%N 0 r1 in
        match cnt with
        | O => 0%Z
        | S _ => if eneg then (- Z.of_N x)%Z else Z.of_N x
        end
      else 0%Z
  | EmptyString => 0%Z
  end.

(** [parseFloat(s)]: the longest prefix that is a StrDecimalLiteral. *)
Definition parseFloat (s : string) : number :=
  let '(neg, s1) := scan_sign (trimStart s) in
  match strip_prefix "Infinity" s1 with
  | Some _ => Infinity neg
  | None =>
      let '(mi, ci, s2) := scan_digits dec_digit 10%N 0%N 0 s1 in
      let '(m, cf, s3) :=
        match s2 with
        | String "." r => scan_digits dec_digit 10%N mi 0 r
        | _ => (mi, 0, s2)
        end in
      match (ci + cf)%nat with
      | O => NaN
      | S _ => Finite neg m (scan_exponent s3 - Z.of_nat cf)
      end
  end.

(** ToString of a value that may be [undefined] ([None]). *)
Definition to_string (o : option string) : string :=
  match o with
  | Some s => s
  | None => "undefined"
  end.

(** [k === s] where [k] may be [undefined]: no conversion takes place. *)
Definition strict_eq (k : option string) (s : string) : bool :=
  match k with
  | Some k' => String.eqb k' s
  | None => false
  end.

(** The receiver of a method call: calling a method of [undefined]
    raises a TypeError. *)
Definition receiver {S : Type} (o : option string) : M S string :=
  match o with
  | Some s => ret s
  | None => throw "TypeError"
  end.

End JS.

Import JS.

(** ** The shared object [sensorData]

    One object holds the current reading and, once [/servo] has been
    called, the pending servo command ([requestedServoPosition], a
    property that is [undefined] until then and after each delivery).
    [null] is [None]. *)

Record SensorData : Type := mkSensorData {
  timestamp : Z;
  moisture : option number;
  moistureStatus : option string;
  light : option number;
  lightStatus : option string;
  water : option number;
  waterStatus : option string;
  temperature : option number;
  humidity : option number;
  servo : option number;
  raw : value;
  requestedServoPosition : value
}.

(** The object as the module creates it, at instant [t0]. *)
Definition initial (t0 : Z) : SensorData :=
  mkSensorData t0 None None None None None None None None None
    (VStr "") VUndefined.

(** Assignments [sensorData.f = v]. *)
Definition set_timestamp (v : Z) (d : SensorData) : SensorData :=
  mkSensorData v (moisture d) (moistureStatus d) (light d) (lightStatus d)
    (water d) (waterStatus d) (temperature d) (humidity d) (servo d)
    (raw d) (requestedServoPosition d).
Definition set_moisture (v : option number) (d : SensorData) : SensorData :=
  mkSensorData (timestamp d) v (moistureStatus d) (light d) (lightStatus d)
    (water d) (waterStatus d) (temperature d) (humidity d) (servo d)
    (raw d) (requestedServoPosition d).
Definition set_moistureStatus (v : option string) (d : SensorData)
  : SensorData :=
  mkSensorData (timestamp d) (moisture d) v (light d) (lightStatus d)
    (water d) (waterStatus d) (temperature d) (humidity d) (servo d)
    (raw d) (requestedServoPosition d).
Definition set_light (v : option number) (d : SensorData) : SensorData :=
  mkSensorData (timestamp d) (moisture d) (moistureStatus d) v (lightStatus d)
    (water d) (waterStatus d) (temperature d) (humidity d) (servo d)
    (raw d) (requestedServoPosition d).
Definition set_lightStatus (v : option string) (d : SensorData) : SensorData :=
  mkSensorData (timestamp d) (moisture d) (moistureStatus d) (light d) v
    (water d) (waterStatus d) (temperature d) (humidity d) (servo d)
    (raw d) (requestedServoPosition d).
Definition set_water (v : option number) (d : SensorData) : SensorData :=
  mkSensorData (timestamp d) (moisture d) (moistureStatus d) (light d)
    (lightStatus d) v (waterStatus d) (temperature d) (humidity d) (servo d)
    (raw d) (requestedServoPosition d).
Definition set_waterStatus (v : option string) (d : SensorData) : SensorData :=
  mkSensorData (timestamp d) (moisture d) (moistureStatus d) (light d)
    (lightStatus d) (water d) v (temperature d) (humidity d) (servo d)
    (raw d) (requestedServoPosition d).
Definition set_temperature (v : option number) (d : SensorData) : SensorData :=
  mkSensorData (timestamp d) (moisture d) (moistureStatus d) (light d)
    (lightStatus d) (water d) (waterStatus d) v (humidity d) (servo d)
    (raw d) (requestedServoPosition d).
Definition set_humidity (v : option number) (d : SensorData) : SensorData :=
  mkSensorData (timestamp d) (moisture d) (moistureStatus d) (light d)
    (lightStatus d) (water d) (waterStatus d) (temperature d) v (servo d)
    (raw d) (requestedServoPosition d).
Definition set_servo (v : option number) (d : SensorData) : SensorData :=
  mkSensorData (timestamp d) (moisture d) (moistureStatus d) (light d)
    (lightStatus d) (water d) (waterStatus d) (temperature d) (humidity d) v
    (raw d) (requestedServoPosition d).
Definition set_raw (v : value) (d : SensorData) : SensorData :=
  mkSensorData (timestamp d) (moisture d) (moistureStatus d) (light d)
    (lightStatus d) (water d) (waterStatus d) (temperature d) (humidity d)
    (servo d) v (requestedServoPosition d).
Definition set_requestedServoPosition (v : value) (d : SensorData)
  : SensorData :=
  mkSensorData (timestamp d) (moisture d) (moistureStatus d) (light d)
    (lightStatus d) (water d) (waterStatus d) (temperature d) (humidity d)
    (servo d) (raw d) v.

(** The nine assignments of [null] that open the parsing block. *)
Definition reset_sensors (d : SensorData) : SensorData :=
  set_servo None (set_humidity None (set_temperature None
    (set_waterStatus None (set_water None (set_lightStatus None
      (set_light None (set_moistureStatus None (set_moisture None d)))))))).

(** ** The parsing loop of [POST /data] *)

Module Parser.

Definition colon : ascii := ":"%char.
Definition comma : ascii := ","%char.

(** [i + 1 < parts.length && !parts[i + 1].includes(":")] *)
Definition next_is_status (parts : list string) (i : nat)
  : M SensorData bool :=
  if Nat.ltb (i + 1) (List.length parts) then
    nxt <- receiver (nth_error parts (i + 1)) ;;
    ret (negb (includes colon nxt))
  else ret false.

(** [parts[i + 1].trim()] *)
Definition next_trimmed (parts : list string) (i : nat)
  : M SensorData string :=
  nxt <- receiver (nth_error parts (i + 1)) ;;
  ret (trim nxt).

(** The body of the [for] loop at index [i]. *)
Definition body (parts : list string) (i : nat) : M SensorData unit :=
  tok <- receiver (nth_error parts i) ;;
  let part := trim tok in
  if includes colon part then
    let pieces := split colon part in
    let key := nth_error pieces 0 in
    let value := nth_error pieces 1 in
    if strict_eq key "Moisture" then
      assign (set_moisture (Some (parseInt (to_string value)))) ;;;
      b <- next_is_status parts i ;;
      if b then
        s <- next_trimmed parts i ;; assign (set_moistureStatus (Some s))
      else ret tt
    else if strict_eq key "Light" then
      assign (set_light (Some (parseInt (to_string value)))) ;;;
      b <- next_is_status parts i ;;
      if b then
        s <- next_trimmed parts i ;; assign (set_lightStatus (Some s))
      else ret tt
    else if strict_eq key "Water" then
      assign (set_water (Some (parseInt (to_string value)))) ;;;
      b <- next_is_status parts i ;;
      if b then
        s <- next_trimmed parts i ;; assign (set_waterStatus (Some s))
      else ret tt
    else if strict_eq key "Temp" then
      assign (set_temperature (Some (parseFloat (to_string value))))
    else if strict_eq key "Humid" then
      assign (set_humidity (Some (parseFloat (to_string value))))
    else if strict_eq key "Servo" then
      assign (set_servo (Some (parseInt (to_string value))))
    else ret tt
  else ret tt.

(** [for (let i = ...; i < parts.length; i++) body], with [fuel] bounding
    the number of iterations. *)
Fixpoint loop (parts : list string) (fuel i : nat) : M SensorData unit :=
  match fuel with
  | O => ret tt
  | S fuel' =>
      if Nat.ltb i (List.length parts) then
        body parts i ;;; loop parts fuel' (i + 1)
      else ret tt
  end.

(** The contents of the inner [try] block: split, reset, scan.  A payload
    that is not a string has no [split] method: the call raises before
    anything is reset. *)
Definition parse_block (rawData : value) : M SensorData unit :=
  match rawData with
  | VStr s =>
      let parts := split comma s in
      assign reset_sensors ;;; loop parts (List.length parts) 0
  | _ => throw "TypeError"
  end.

End Parser.

(** ** Responses, durable sinks and pending callbacks *)

(** What [JSON.stringify] writes for a property. *)
Inductive json : Type :=
| JNull
| JBool (b : bool)
| JNum (n : number)
| JStr (s : string)
| JIso (t : Z).

Definition json_of_number (n : number) : json :=
  match n with
  | Finite _ _ _ => JNum n
  | _ => JNull
  end.

(** A property whose value is [undefined] is left out ([None]). *)
Definition json_of_value (v : value) : option json :=
  match v with
  | VUndefined => None
  | VNull => Some JNull
  | VBool b => Some (JBool b)
  | VNum n => Some (json_of_number n)
  | VStr s => Some (JStr s)
  end.

Definition json_of_opt_number (o : option number) : json :=
  match o with
  | Some n => json_of_number n
  | None => JNull
  end.

Definition json_of_opt_string (o : option string) : json :=
  match o with
  | Some s => JStr s
  | None => JNull
  end.

Definition prop (k : string) (v : value) : list (string * json) :=
  match json_of_value v with
  | Some j => [(k, j)]
  | None => []
  end.

(** [JSON.stringify(sensorData)], property by property. *)
Definition stringify (d : SensorData) : list (string * json) :=
  [ ("timestamp", JIso (timestamp d));
    ("moisture", json_of_opt_number (moisture d));
    ("moistureStatus", json_of_opt_string (moistureStatus d));
    ("light", json_of_opt_number (light d));
    ("lightStatus", json_of_opt_string (lightStatus d));
    ("water", json_of_opt_number (water d));
    ("waterStatus", json_of_opt_string (waterStatus d));
    ("temperature", json_of_opt_number (temperature d));
    ("humidity", json_of_opt_number (humidity d));
    ("servo", json_of_opt_number (servo d)) ]
  ++ prop "raw" (raw d)
  ++ prop "requestedServoPosition" (requestedServoPosition d).

Record Response (A : Type) : Type := mkResponse {
  status : nat;
  payload : A
}.

Arguments mkResponse {A} status payload.
Arguments status {A} r.
Arguments payload {A} r.

Definition JsonResponse : Type := Response (list (string * json)).

(** A document of the [SensorData] collection, as [saveSensorData]
    builds it from the object it is handed. *)
Record SensorDoc : Type := mkSensorDoc {
  doc_timestamp : Z;
  doc_moisture : option number;
  doc_moistureStatus : option string;
  doc_light : option number;
  doc_lightStatus : option string;
  doc_water : option number;
  doc_waterStatus : option string;
  doc_temperature : option number;
  doc_humidity : option number;
  doc_servo : option number;
  doc_raw : value
}.

Definition snapshot (d : SensorData) : SensorDoc :=
  mkSensorDoc (timestamp d) (moisture d) (moistureStatus d) (light d)
    (lightStatus d) (water d) (waterStatus d) (temperature d) (humidity d)
    (servo d) (raw d).

(** The message of a log record: a string as written, or a template
    literal with one substitution, [Template s v] standing for the text
    [s] followed by ToString of [v]. *)
Inductive Message : Type :=
| Plain (s : string)
| Template (s : string) (v : value).

(** A document of the [Log] collection. *)
Record LogRecord : Type := mkLogRecord {
  log_timestamp : Z;
  log_type : string;
  log_message : Message;
  log_data : list (string * value)
}.

Inductive LogFile : Type := SensorLogFile | ServoLogFile.

(** Everything a handler or one of its callbacks can touch. *)
Record World : Type := mkWorld {
  mem : SensorData;
  files : list (LogFile * Z * value);
  sensorColl : list SensorDoc;
  logColl : list LogRecord;
  console : list string
}.

Definition set_mem (d : SensorData) (w : World) : World :=
  mkWorld d (files w) (sensorColl w) (logColl w) (console w).
Definition add_file (f : LogFile * Z * value) (w : World) : World :=
  mkWorld (mem w) (files w ++ [f]) (sensorColl w) (logColl w) (console w).
Definition add_doc (x : SensorDoc) (w : World) : World :=
  mkWorld (mem w) (files w) (sensorColl w ++ [x]) (logColl w) (console w).
Definition add_log (l : LogRecord) (w : World) : World :=
  mkWorld (mem w) (files w) (sensorColl w) (logColl w ++ [l]) (console w).
Definition console_error (m : string) (w : World) : World :=
  mkWorld (mem w) (files w) (sensorColl w) (logColl w) (console w ++ [m]).

(** Work a handler starts and does not wait for: it completes after the
    response, with an outcome the handler never sees. *)
Inductive task : Type :=
| AppendFile (f : LogFile) (stamp : Z) (entry : value)
    (complaint on_error : string)
| SaveSensorData (doc : SensorDoc)
| SaveServoLog (stamp : Z) (position : value)
| SaveErrorLog (message : string).

(** How the sinks answer when a task completes at instant [at_]. *)
Record outcome : Type := mkOutcome {
  at_ : Z;
  write_ok : bool;
  log_ok : bool;
  errlog_ok : bool
}.

(** [saveLog(type, message, data)]: [false] and a console line on failure. *)
Definition saveLog (ok : bool) (t : Z) (type : string) (message : Message)
    (data : list (string * value)) (w : World) : World :=
  if ok then add_log (mkLogRecord t type message data) w
  else console_error "Error saving log to MongoDB:" w.

Definition saveErrorLog (o : outcome) (message : string) (w : World) : World :=
  saveLog (errlog_ok o) (at_ o) "error" (Plain message) [] w.

(** The completion of a task.

    [saveSensorData] builds its document when called and, once the save
    has ended well, writes the [sensor] record with the raw line that the
    shared object holds at that moment.  [saveServoLog] builds its record
    when the handler calls it, hence [stamp], with the position both in
    the message and in the data.  Of an error record the data (the message
    and the stack of the exception) are left out, and the error record
    that a handler asks for is stamped like those written from a callback,
    when the write ends. *)
Definition settle (t : task) (o : outcome) (w : World) : World :=
  match t with
  | AppendFile f stamp entry complaint on_error =>
      if write_ok o then add_file (f, stamp, entry) w
      else saveErrorLog o on_error (console_error complaint w)
  | SaveSensorData doc =>
      if write_ok o then
        saveLog (log_ok o) (at_ o) "sensor" (Plain "Sensor data received")
          [("raw", raw (mem w))] (add_doc doc w)
      else console_error "Error saving to MongoDB:" w
  | SaveServoLog stamp position =>
      saveLog (log_ok o) stamp "servo"
        (Template "Servo position set to " position)
        [("position", position)] w
  | SaveErrorLog message => saveErrorLog o message w
  end.

Fixpoint settle_all (ts : list (task * outcome)) (w : World) : World :=
  match ts with
  | [] => w
  | (t, o) :: rest => settle_all rest (settle t o w)
  end.

(** ** The query chain [Model.find(q).sort({timestamp: -1}).skip(s).limit(l)]

    The database is a collaborator; this is the behaviour its driver
    documents.  Sorting is by descending time stamp; a negative [skip] is
    refused by the server; a [limit] of 0 means no limit and a negative
    one is taken by its absolute value. *)

Module Mongo.

Section Cursor.

Context {A : Type}.
Variable stamp : A -> Z.

Fixpoint insert_desc (x : A) (l : list A) : list A :=
  match l with
  | [] => [x]
  | y :: t =>
      if (stamp x <? stamp y)%Z then y :: insert_desc x t else x :: l
  end.

(** [sort({ timestamp: -1 })].  Where two timestamps tie the database
    fixes no order and the model picks one; with pairwise distinct
    timestamps the newest-first order is unique. *)
Definition sort_desc (l : list A) : list A := fold_right insert_desc [] l.

Definition take (limit : Z) (l : list A) : list A :=
  if (limit =? 0)%Z then l else firstn (Z.to_nat (Z.abs limit)) l.

(** Newest first. *)
Definition newer (a b : A) : Prop := (stamp b <= stamp a)%Z.

Definition find_sorted (coll : list A) (skip limit : Z) : option (list A) :=
  if (skip <? 0)%Z then None
  else Some (take limit (skipn (Z.to_nat skip) (sort_desc coll))).

End Cursor.

End Mongo.

(** ** [mongodb.js]: the two queries *)

(** [getHistoricalData(limit = 100, skip = 0)]: an argument left out
    ([None]) takes its default. *)
Definition getHistoricalData (limit skip : option Z)
  : M World (list SensorDoc) :=
  fun w =>
    let l := match limit with Some l => l | None => 100%Z end in
    let s := match skip with Some s => s | None => 0%Z end in
    match Mongo.find_sorted doc_timestamp (sensorColl w) s l with
    | Some rows => Ok rows w
    | None =>
        Throw "MongoServerError"
          (console_error "Error fetching historical data:" w)
    end.

(** The [options] object of [getLogs]. *)
Record LogOptions : Type := mkLogOptions {
  opt_type : option string;
  opt_limit : option Z;
  opt_skip : option Z;
  opt_startDate : option string;
  opt_endDate : option string
}.

(** ToBoolean of a string that may be [undefined]. *)
Definition given (o : option string) : bool :=
  match o with
  | Some s => negb (String.eqb s "")
  | None => false
  end.

Section Logs.

(** [new Date(s)]: the time value, or [None] for an invalid date, which
    the query layer refuses to cast. *)
Variable parseDate : string -> option Z.

(** One bound of the time-stamp filter: [None] when the bound cannot
    be cast. *)
Definition bound (o : option string) (test : Z -> Z -> bool)
  : option (LogRecord -> bool) :=
  if given o then
    match parseDate (to_string o) with
    | Some t => Some (fun r => test t (log_timestamp r))
    | None => None
    end
  else Some (fun _ => true).

Definition type_filter (o : option string) (r : LogRecord) : bool :=
  if given o then String.eqb (log_type r) (to_string o) else true.

(** [getLogs(options)] *)
Definition getLogs (options : LogOptions) : M World (list LogRecord) :=
  fun w =>
    let l := match opt_limit options with Some l => l | None => 100%Z end in
    let s := match opt_skip options with Some s => s | None => 0%Z end in
    let refused :=
      Throw "Error" (console_error "Error fetching logs:" w) in
    match bound (opt_startDate options) Z.leb,
          bound (opt_endDate options) (fun t x => Z.leb x t) with
    | Some from, Some to =>
        let matching :=
          filter (fun r => type_filter (opt_type options) r
                           && from r && to r)%bool (logColl w) in
        match Mongo.find_sorted log_timestamp matching s l with
        | Some rows => Ok rows w
        | None => refused
        end
    | _, _ => refused
    end.

End Logs.

(** ** The Express handlers

    A handler takes the world to a response, the world it leaves and the
    tasks it started.  Payloads are JSON primitives or missing; for those
    nothing outside the inner [try] of [/data] can raise, so the outer
    [catch] blocks of [/data] and [/servo] are not entered. *)

Module Server.

Definition Step (A : Type) : Type := Response A * World * list task.

Definition response {A : Type} (x : Step A) : Response A := fst (fst x).
Definition world {A : Type} (x : Step A) : World := snd (fst x).
Definition started {A : Type} (x : Step A) : list task := snd x.

(** [server.post("/data", ...)], with [req.body.data] and the instant
    of the request. *)
Definition post_data (now : Z) (rawData : value) (w : World)
  : Step (list (string * json)) :=
  let d0 := set_timestamp now (set_raw rawData (mem w)) in
  let parsed := Parser.parse_block rawData d0 in
  let d1 := final_state parsed in
  let caught :=
    if raised parsed then [SaveErrorLog "Error parsing sensor data"] else [] in
  (mkResponse 200 [("status", JStr "success");
                   ("message", JStr "Data received")],
   set_mem d1 w,
   caught ++ [AppendFile SensorLogFile (timestamp d1) rawData
                "Error writing to log file:" "Error writing to file log";
              SaveSensorData (snapshot d1)]).

(** [server.get("/data", ...)] *)
Definition get_data (w : World) : Step (list (string * json)) :=
  (mkResponse 200 (stringify (mem w)), w, []).

(** [server.post("/servo", ...)], with [req.body.position]. *)
Definition post_servo (now : Z) (position : value) (w : World)
  : Step (list (string * json)) :=
  let d := set_requestedServoPosition position (mem w) in
  (mkResponse 200 ([("status", JStr "success");
                    ("message", JStr "Servo position request received")]
                   ++ prop "position" position),
   set_mem d w,
   [AppendFile ServoLogFile now position
      "Error writing to servo log file:" "Error writing to servo log file";
    SaveServoLog now position]).

(** [server.get("/servo-check", ...)] *)
Definition servo_check (w : World) : Step (list (string * json)) :=
  if negb (is_undefined (requestedServoPosition (mem w))) then
    let position := requestedServoPosition (mem w) in
    let d := set_requestedServoPosition VUndefined (mem w) in
    (mkResponse 200 ([("status", JStr "success")] ++ prop "position" position),
     set_mem d w, [])
  else
    (mkResponse 200 [("status", JStr "no_request")], w, []).

(** The body of a query response: the rows, or [{error: message}]. *)
Inductive reply (A : Type) : Type :=
| Rows (rows : list A)
| Failed (message : string).

Arguments Rows {A} rows.
Arguments Failed {A} message.

(** [parseInt(q) || d] on a query parameter that may be missing. *)
Definition query_int (q : option string) (d : Z) : Z :=
  to_int (or_default (parseInt (to_string q)) (of_Z d)).

(** [server.get("/data/history", ...)], with [req.query.limit] and
    [req.query.skip]. *)
Definition get_history (limit skip : option string) (w : World)
  : Step (reply SensorDoc) :=
  let l := query_int limit 100 in
  let s := query_int skip 0 in
  match getHistoricalData (Some l) (Some s) w with
  | Ok rows w' => (mkResponse 200 (Rows rows), w', [])
  | Throw m w' =>
      (mkResponse 500 (Failed m),
       console_error "Error fetching history:" w',
       [SaveErrorLog "Error fetching sensor history"])
  end.

(** The query string of [/logs]. *)
Record LogsQuery : Type := mkLogsQuery {
  q_type : option string;
  q_limit : option string;
  q_skip : option string;
  q_startDate : option string;
  q_endDate : option string
}.

Definition log_options (q : LogsQuery) : LogOptions :=
  mkLogOptions (q_type q)
    (Some (query_int (q_limit q) 100)) (Some (query_int (q_skip q) 0))
    (if given (q_startDate q) then q_startDate q else None)
    (if given (q_endDate q) then q_endDate q else None).

(** [server.get("/logs", ...)] *)
Definition get_logs (parseDate : string -> option Z) (q : LogsQuery)
    (w : World) : Step (reply LogRecord) :=
  match getLogs parseDate (log_options q) w with
  | Ok rows w' => (mkResponse 200 (Rows rows), w', [])
  | Throw m w' =>
      (mkResponse 500 (Failed m), console_error "Error fetching logs:" w', [])
  end.

(** A request to [/data] whose two writes both succeed, with the
    callbacks run to completion. *)
Definition ingest_ok (now : Z) (rawData : string) (w : World) : World :=
  let x := post_data now (VStr rawData) w in
  let ok := mkOutcome now true true true in
  settle_all (combine (started x) [ok; ok]) (world x).

(** The server just started, with empty sinks. *)
Definition fresh (t0 : Z) : World := mkWorld (initial t0) [] [] [] [].

(** Five readings received one after the other. *)
Definition five_readings : World :=
  ingest_ok 5 "Temp:25" (ingest_ok 4 "Temp:24" (ingest_ok 3 "Temp:23"
    (ingest_ok 2 "Temp:22" (ingest_ok 1 "Temp:21" (fresh 0))))).

End Server.

(** ** [app/api/servo/route.ts]

    The Next.js route has no state.  [None] stands for a request whose
    body [request.json()] rejects; otherwise the argument is the
    [position] property of the body. *)

Module Route.

Definition invalid (position : value) : bool :=
  match position with
  | VNum n => (lt_int n 0 || gt_int n 180)%bool
  | _ => true
  end.

Definition POST (body : option value) : JsonResponse :=
  match body with
  | None => mkResponse 500 [("error", JStr "Failed to process request")]
  | Some position =>
      if invalid position then
        mkResponse 400
          [("error",
            JStr "Invalid position. Must be a number between 0 and 180.")]
      else
        mkResponse 200 ([("success", JBool true)] ++ prop "position" position)
  end.

End Route.

(** ** The scan, token by token

    What one iteration of the loop does to the object, as a function of
    the token and of the token after it ([None] at the end of the line);
    the theorems below show that the loop computes exactly this and
    never raises. *)

Module Scan.

Import Parser.

(** The [key] and [value] that the destructuring binds for a token. *)
Definition token_key (tok : string) : option string :=
  nth_error (split colon (trim tok)) 0.

Definition token_value (tok : string) : string :=
  to_string (nth_error (split colon (trim tok)) 1).

(** The token is a [Key:Value] pair for the key [k]. *)
Definition is_key_token (k tok : string) : bool :=
  (includes colon (trim tok) && strict_eq (token_key tok) k)%bool.

(** The status word that the token after a key provides: it is there
    and has no colon. *)
Definition attached (next : option string) : option string :=
  match next with
  | Some nxt => if includes colon nxt then None else Some (trim nxt)
  | None => None
  end.

(** The status assignment that follows a Moisture, Light or Water key. *)
Definition attach (set : option string -> SensorData -> SensorData)
    (next : option string) (d : SensorData) : SensorData :=
  match attached next with
  | Some s => set (Some s) d
  | None => d
  end.

Definition step (tok : string) (next : option string) (d : SensorData)
  : SensorData :=
  if includes colon (trim tok) then
    if strict_eq (token_key tok) "Moisture" then
      attach set_moistureStatus next
        (set_moisture (Some (parseInt (token_value tok))) d)
    else if strict_eq (token_key tok) "Light" then
      attach set_lightStatus next
        (set_light (Some (parseInt (token_value tok))) d)
    else if strict_eq (token_key tok) "Water" then
      attach set_waterStatus next
        (set_water (Some (parseInt (token_value tok))) d)
    else if strict_eq (token_key tok) "Temp" then
      set_temperature (Some (parseFloat (token_value tok))) d
    else if strict_eq (token_key tok) "Humid" then
      set_humidity (Some (parseFloat (token_value tok))) d
    else if strict_eq (token_key tok) "Servo" then
      set_servo (Some (parseInt (token_value tok))) d
    else d
  else d.

Fixpoint scan (parts : list string) (d : SensorData) : SensorData :=
  match parts with
  | [] => d
  | tok :: rest => scan rest (step tok (hd_error rest) d)
  end.

(** The fields of a line parsed on its own, with nothing before it. *)
Definition parse (raw : string) : SensorData :=
  scan (split comma raw) (initial 0).

(** Token [i] is a [k] key and token [i + 1] is a bare word, which
    trimmed reads [s]. *)
Definition attaches (k : string) (parts : list string) (i : nat) (s : string)
  : Prop :=
  exists tok nxt,
    nth_error parts i = Some tok /\ is_key_token k tok = true /\
    nth_error parts (S i) = Some nxt /\ includes colon nxt = false /\
    s = trim nxt.

(** [i] is the last position at which a status attaches to [k]. *)
Definition last_attached (k : string) (parts : list string) (s : string)
  : Prop :=
  exists i, attaches k parts i s /\
            forall j s', i < j -> ~ attaches k parts j s'.

(** The same, computed: the status of the last [k] key that has one. *)
Fixpoint status_of (k : string) (parts : list string) : option string :=
  match parts with
  | [] => None
  | tok :: rest =>
      match status_of k rest with
      | Some s => Some s
      | None =>
          if is_key_token k tok then attached (hd_error rest) else None
      end
  end.

(** The value of the last [k] key of the line, read by [read]. *)
Fixpoint value_of (k : string) (read : string -> number) (parts : list string)
  : option number :=
  match parts with
  | [] => None
  | tok :: rest =>
      match value_of k read rest with
      | Some v => Some v
      | None => if is_key_token k tok then Some (read (token_value tok))
                else None
      end
  end.

(** The six numeric fields: key, reader and where the result goes. *)
Definition numeric_fields
  : list (string * (string -> number) * (SensorData -> option number)) :=
  [("Moisture", parseInt, moisture); ("Light", parseInt, light);
   ("Water", parseInt, water); ("Temp", parseFloat, temperature);
   ("Humid", parseFloat, humidity); ("Servo", parseInt, servo)].

Definition known_keys : list string :=
  ["Moisture"; "Light"; "Water"; "Temp"; "Humid"; "Servo"].

Definition is_known (tok : string) : bool :=
  existsb (fun k => is_key_token k tok) known_keys.

End Scan.

(** ** Well-formed lines: one group per key *)

Module Line.

Import Parser.

Inductive group : Type :=
| GMoisture (v s : string)
| GLight (v s : string)
| GWater (v s : string)
| GTemp (v : string)
| GHumid (v : string)
| GServo (v : string).

(** The tokens a group contributes: its [Key:Value] pair and, for the
    three sensors that have one, the status word right after it. *)
Definition tokens (g : group) : list string :=
  match g with
  | GMoisture v s => [("Moisture:" ++ v)%string; s]
  | GLight v s => [("Light:" ++ v)%string; s]
  | GWater v s => [("Water:" ++ v)%string; s]
  | GTemp v => [("Temp:" ++ v)%string]
  | GHumid v => [("Humid:" ++ v)%string]
  | GServo v => [("Servo:" ++ v)%string]
  end.

Definition line (gs : list group) : string :=
  join comma (flat_map tokens gs).

(** No character of [s] satisfies [p]. *)
Fixpoint free_of (p : ascii -> bool) (s : string) : bool :=
  match s with
  | String c r => (negb (p c) && free_of p r)%bool
  | EmptyString => true
  end.

(** A value has no comma, colon or white space; a status word has no
    comma or colon. *)
Definition wf_value (v : string) : bool :=
  free_of (fun c => Ascii.eqb c comma || Ascii.eqb c colon || is_whitespace c)%bool v.

Definition wf_status (s : string) : bool :=
  free_of (fun c => Ascii.eqb c comma || Ascii.eqb c colon)%bool s.

Definition wf_group (g : group) : bool :=
  match g with
  | GMoisture v s | GLight v s | GWater v s => (wf_value v && wf_status s)%bool
  | GTemp v | GHumid v | GServo v => wf_value v
  end.

(** What a group assigns. *)
Definition apply (g : group) (d : SensorData) : SensorData :=
  match g with
  | GMoisture v s =>
      set_moistureStatus (Some (trim s)) (set_moisture (Some (parseInt v)) d)
  | GLight v s =>
      set_lightStatus (Some (trim s)) (set_light (Some (parseInt v)) d)
  | GWater v s =>
      set_waterStatus (Some (trim s)) (set_water (Some (parseInt v)) d)
  | GTemp v => set_temperature (Some (parseFloat v)) d
  | GHumid v => set_humidity (Some (parseFloat v)) d
  | GServo v => set_servo (Some (parseInt v)) d
  end.

(** Two groups assign the same fields or disjoint ones. *)
Definition kind (g : group) : nat :=
  match g with
  | GMoisture _ _ => 0
  | GLight _ _ => 1
  | GWater _ _ => 2
  | GTemp _ => 3
  | GHumid _ => 4
  | GServo _ => 5
  end.

(** The six groups of a full line, in the order the device sends them. *)
Definition canonical (vm sm vl sl vw sw vt vh vs : string) : list group :=
  [GMoisture vm sm; GLight vl sl; GWater vw sw; GTemp vt; GHumid vh;
   GServo vs].

(** What a full line leaves in the object [d]. *)
Definition reading (vm sm vl sl vw sw vt vh vs : string) (d : SensorData)
  : SensorData :=
  mkSensorData (timestamp d)
    (Some (parseInt vm)) (Some (trim sm))
    (Some (parseInt vl)) (Some (trim sl))
    (Some (parseInt vw)) (Some (trim sw))
    (Some (parseFloat vt)) (Some (parseFloat vh)) (Some (parseInt vs))
    (raw d) (requestedServoPosition d).

End Line.

(** ** Requests in sequence

    The server as a whole: requests arrive one at a time, and between
    them the writes started earlier complete.  A completion is taken
    with any task and any outcome, which covers every schedule the
    event loop can produce. *)

Module Trace.

Import Server.

(** [saveSystemLog(message)], as the start-up code calls it. *)
Definition saveSystemLog (o : outcome) (message : string) (w : World)
  : World :=
  saveLog (log_ok o) (at_ o) "system" (Plain message) [] w.

Inductive event : Type :=
| PostData (now : Z) (data : value)
| GetData
| PostServo (now : Z) (position : value)
| ServoCheck
| GetHistory (limit skip : option string)
| GetLogs (q : LogsQuery)
| Complete (t : task) (o : outcome)
| SystemLog (message : string) (o : outcome).

Inductive answer : Type :=
| Json (r : JsonResponse)
| HistoryRows (r : Response (reply SensorDoc))
| LogRows (r : Response (reply LogRecord))
| NoAnswer.

Section Run.

Variable parseDate : string -> option Z.

(** One event: what is answered and the world left. *)
Definition handle (e : event) (w : World) : answer * World :=
  match e with
  | PostData now data =>
      let x := post_data now data w in (Json (response x), world x)
  | GetData => let x := get_data w in (Json (response x), world x)
  | PostServo now position =>
      let x := post_servo now position w in (Json (response x), world x)
  | ServoCheck => let x := servo_check w in (Json (response x), world x)
  | GetHistory limit skip =>
      let x := get_history limit skip w in (HistoryRows (response x), world x)
  | GetLogs q =>
      let x := get_logs parseDate q w in (LogRows (response x), world x)
  | Complete t o => (NoAnswer, settle t o w)
  | SystemLog message o => (NoAnswer, saveSystemLog o message w)
  end.

(** The world after a sequence of events. *)
Fixpoint run (es : list event) (w : World) : World :=
  match es with
  | [] => w
  | e :: rest => run rest (snd (handle e w))
  end.

(** The answers to a sequence of events, each with its event. *)
Fixpoint answers (es : list event) (w : World) : list (event * answer) :=
  match es with
  | [] => []
  | e :: rest => (e, fst (handle e w)) :: answers rest (snd (handle e w))
  end.

End Run.

(** The body with which [/servo-check] hands a position to the device. *)
Definition handover (position : value) : list (string * json) :=
  [("status", JStr "success")] ++ prop "position" position.

Definition is_success (r : JsonResponse) : bool :=
  match payload r with
  | (k, JStr s) :: _ => (String.eqb k "status" && String.eqb s "success")%bool
  | _ => false
  end.

(** What the device received: the successful answers of [/servo-check]. *)
Definition delivery (x : event * answer) : list (list (string * json)) :=
  match x with
  | (ServoCheck, Json r) => if is_success r then [payload r] else []
  | _ => []
  end.

(** What the dashboard asked for: one handover per [/servo] request that
    carried a position. *)
Definition command (e : event) : list (list (string * json)) :=
  match e with
  | PostServo _ position =>
      if is_undefined position then [] else [handover position]
  | _ => []
  end.

(** The handover waiting in the slot, if any. *)
Definition waiting (w : World) : list (list (string * json)) :=
  if is_undefined (requestedServoPosition (mem w)) then []
  else [handover (requestedServoPosition (mem w))].

(** [l] is [m] with some elements left out, the order kept. *)
Inductive subseq {A : Type} : list A -> list A -> Prop :=
| subseq_nil : subseq [] []
| subseq_skip x l m : subseq l m -> subseq l (x :: m)
| subseq_keep x l m : subseq l m -> subseq (x :: l) (x :: m).

(** Everything the device was handed during a run, in order. *)
Definition deliveries (parseDate : string -> option Z) (es : list event)
    (w : World) : list (list (string * json)) :=
  flat_map delivery (answers parseDate es w).

(** Everything the dashboard asked for during a run, in order. *)
Definition commands (es : list event) : list (list (string * json)) :=
  flat_map command es.

(** Two worlds with the same object and the same durable contents; the
    console may differ. *)
Definition same_store (w w' : World) : Prop :=
  mem w' = mem w /\ files w' = files w /\
  sensorColl w' = sensorColl w /\ logColl w' = logColl w.

Definition is_post_data (e : event) : bool :=
  match e with PostData _ _ => true | _ => false end.

Definition touches_slot (e : event) : bool :=
  match e with PostServo _ _ | ServoCheck => true | _ => false end.

(** The kinds of record the [Log] schema allows. *)
Definition log_kinds : list string := ["sensor"; "servo"; "system"; "error"].

(** How many records of kind [sensor] a log holds. *)
Definition sensor_records (l : list LogRecord) : nat :=
  List.length (filter (fun r => String.eqb (log_type r) "sensor") l).

End Trace.

(** ** Reading a numeric field by position *)

Module Value.

Import Parser Scan.

(** Token [i] is a [k] key whose value reads as [v]. *)
Definition reads (k : string) (read : string -> number) (parts : list string)
    (i : nat) (v : number) : Prop :=
  exists tok,
    nth_error parts i = Some tok /\ is_key_token k tok = true /\
    v = read (token_value tok).

(** [i] is the last [k] key of the line. *)
Definition last_read (k : string) (read : string -> number)
    (parts : list string) (v : number) : Prop :=
  exists i, reads k read parts i v /\
    forall j tok, i < j -> nth_error parts j = Some tok ->
                  is_key_token k tok = false.


End Value.

(** ** White space around tokens *)

Module Padding.

Import Parser.

(** Nothing but white space. *)
Definition blank (s : string) : bool :=
  Line.free_of (fun c => negb (is_whitespace c)) s.

(** A token with the white space written before and after it. *)
Record padded : Type := mkPadded {
  before : string;
  token : string;
  after : string
}.

Definition spaced (p : padded) : string :=
  (before p ++ token p ++ after p)%string.

Definition wf_padded (p : padded) : bool :=
  (blank (before p) && blank (after p)
   && negb (includes comma (token p)))%bool.

End Padding.

(** ** The mock sensor route ([GET], Next.js)

    The route draws its values with [Math.random]; the draws are taken
    here after [Math.floor], and the temperature as the number of tenths
    that [toFixed(1)] prints. *)

Module Mock.

Definition digit_char (d : N) : ascii := ascii_of_N (48 + d).

(** The decimal digits of [n] in front of [acc]. *)
Fixpoint to_digits (fuel : nat) (n : N) (acc : string) : string :=
  match fuel with
  | O => acc
  | S fuel' =>
      let acc' := String (digit_char (n mod 10)) acc in
      if (n <? 10)%N then acc' else to_digits fuel' (n / 10) acc'
  end.

Definition is_digit (c : ascii) : bool :=
  match dec_digit c with Some _ => true | None => false end.

(** Decimal digits and nothing else. *)
Definition all_digits (s : string) : bool :=
  Line.free_of (fun c => negb (is_digit c)) s.

(** [String(n)] for a non-negative integer. *)
Definition to_dec (n : N) : string :=
  to_digits (S (N.to_nat (N.log2 n))) n "".

(** [x.toFixed(1)] for the [x] that prints as [tenths / 10]. *)
Definition toFixed1 (tenths : N) : string :=
  (to_dec (tenths / 10) ++ "." ++ to_dec (tenths mod 10))%string.

Definition moisture_status (m : N) : string :=
  if (m <? 300)%N then "DRY" else if (m <? 700)%N then "MOIST" else "WET".

Definition light_status (l : N) : string :=
  if (l <? 300)%N then "DARK" else if (l <? 700)%N then "MEDIUM" else "BRIGHT".

Definition water_status (w : N) : string :=
  if (w <? 30)%N then "LOW" else if (w <? 70)%N then "MEDIUM" else "HIGH".

(** The JSON object the route answers with. *)
Record reading : Type := mkReading {
  m_moisture : N;
  m_moistureStatus : string;
  m_light : N;
  m_lightStatus : string;
  m_water : N;
  m_waterStatus : string;
  m_temperature : string;
  m_humidity : N;
  m_servo : N;
  m_raw : string;
  m_timestamp : Z
}.

Definition GET (now : Z) (moisture light water tenths humidity : N)
  : reading :=
  let moistureStatus := moisture_status moisture in
  let lightStatus := light_status light in
  let waterStatus := water_status water in
  let temperature := toFixed1 tenths in
  let servo := 45%N in
  let raw :=
    ("Moisture:" ++ to_dec moisture ++ "," ++ moistureStatus
     ++ ",Light:" ++ to_dec light ++ "," ++ lightStatus
     ++ ",Water:" ++ to_dec water ++ "," ++ waterStatus
     ++ ",Temp:" ++ temperature
     ++ ",Humid:" ++ to_dec humidity
     ++ ",Servo:" ++ to_dec servo)%string in
  mkReading moisture moistureStatus light lightStatus water waterStatus
    temperature humidity servo raw now.

End Mock.

(** ** The dashboard pages: [getStatusColor] *)

Module Page.

Definition gray : string := "bg-gray-800 text-gray-300".
Definition red : string := "bg-red-900/50 text-red-300".
Definition yellow : string := "bg-yellow-900/50 text-yellow-300".
Definition green : string := "bg-green-900/50 text-green-300".

Definition one_of (s : string) (l : list string) : bool :=
  existsb (String.eqb s) l.

(** [getStatusColor(status)] of [app/page.tsx]; [null] is [None]. *)
Definition getStatusColor (status : option string) : string :=
  match status with
  | None => gray
  | Some s =>
      if String.eqb s "" then gray
      else if one_of s ["DRY"; "DARK"; "LOW"] then red
      else if one_of s ["MOIST"; "MEDIUM"] then yellow
      else if one_of s ["WET"; "BRIGHT"; "HIGH"] then green
      else gray
  end.

(** A plant card of the dashboard. *)
Record Plant : Type := mkPlant {
  plant_id : string;
  plant_name : string;
  plant_location : string;
  plant_type : string;
  plant_image : string;
  plant_lastWatered : option string;
  plant_health : option string
}.

(** [toLowerCase] on one code unit below 256: the letters A-Z and the
    accented capitals U+00C0-U+00DE, the multiplication sign apart. *)
Definition lower_char (c : ascii) : ascii :=
  let n := N_of_ascii c in
  if (((65 <=? n) && (n <=? 90))
      || ((192 <=? n) && (n <=? 222) && negb (n =? 215)))%N%bool
  then ascii_of_N (n + 32) else c.

(** [s.toLowerCase()] for a string of code units below 256, the only
    strings of this development: there the conversion goes unit by unit.
    Above that range the language has context-sensitive and
    length-changing rules (the final form of the Greek sigma, the dotted
    capital I); they are out of the model, and so is every statement on
    [toLowerCase] for such strings. *)
Fixpoint toLowerCase (s : string) : string :=
  match s with
  | String c r => String (lower_char c) (toLowerCase r)
  | EmptyString => EmptyString
  end.

(** [s.startsWith(p)] *)
Fixpoint starts_with (p s : string) : bool :=
  match p, s with
  | EmptyString, _ => true
  | String a p', String b s' => (Ascii.eqb a b && starts_with p' s')%bool
  | String _ _, EmptyString => false
  end.

(** [s.includes(needle)] for a needle of any length. *)
Fixpoint includes_str (needle s : string) : bool :=
  (starts_with needle s
   || match s with
      | String _ r => includes_str needle r
      | EmptyString => false
      end)%bool.

(** The predicate of [filteredPlants]. *)
Definition matches (searchQuery : string) (plant : Plant) : bool :=
  (includes_str (toLowerCase searchQuery) (toLowerCase (plant_name plant))
   || includes_str (toLowerCase searchQuery)
        (toLowerCase (plant_location plant))
   || includes_str (toLowerCase searchQuery)
        (toLowerCase (plant_type plant)))%bool.

Definition filteredPlants (plants : list Plant) (searchQuery : string)
  : list Plant :=
  filter (matches searchQuery) plants.

End Page.

(** * Proofs *)

(** ** Lists and strings *)

Lemma skipn_cons_nth {A : Type} (l : list A) (i : nat) (x : A) :
  nth_error l i = Some x -> skipn i l = x :: skipn (S i) l.
Proof.
  revert i; induction l as [|y l IH]; intros [|i] H; simpl in *;
    try discriminate.
  - now inversion H.
  - now apply IH.
Qed.

Lemma hd_skipn_nth {A : Type} (l : list A) (i : nat) :
  hd_error (skipn i l) = nth_error l i.
Proof.
  revert i; induction l as [|y l IH]; intros [|i]; simpl; auto.
Qed.

Lemma strict_eq_true (k : option string) (s : string) :
  strict_eq k s = true -> k = Some s.
Proof.
  destruct k as [k|]; simpl; [|discriminate].
  intros H; apply String.eqb_eq in H; now subst.
Qed.

Lemma strict_eq_other (k : option string) (a b : string) :
  strict_eq k a = true -> a <> b -> strict_eq k b = false.
Proof.
  intros H Hab; apply strict_eq_true in H; subst; simpl.
  now apply String.eqb_neq.
Qed.

(** ** The loop computes the scan and never raises *)

Module LoopFacts.

Import Parser Scan.

Lemma status_statement (parts : list string) (i : nat)
    (set : option string -> SensorData -> SensorData) (d : SensorData) :
  (b <- next_is_status parts i ;;
   if b then s <- next_trimmed parts i ;; assign (set (Some s))
   else ret tt) d
  = Ok tt (attach set (nth_error parts (i + 1)) d).
Proof.
  unfold next_is_status, next_trimmed, bind, attach, attached.
  destruct (nth_error parts (i + 1)) as [nxt|] eqn:E.
  - assert (L : i + 1 < List.length parts)
      by (apply nth_error_Some; congruence).
    apply Nat.ltb_lt in L; rewrite L; simpl.
    destruct (includes colon nxt); reflexivity.
  - assert (L : List.length parts <= i + 1) by now apply nth_error_None.
    apply Nat.ltb_ge in L; rewrite L; reflexivity.
Qed.

Lemma body_step (parts : list string) (i : nat) (tok : string)
    (d : SensorData) :
  nth_error parts i = Some tok ->
  body parts i d = Ok tt (step tok (nth_error parts (i + 1)) d).
Proof.
  intros H; unfold body, step, token_key, token_value, bind at 1.
  rewrite H; simpl.
  destruct (includes colon (trim tok)); [|reflexivity].
  repeat match goal with
  | |- context [strict_eq ?k ?s] => destruct (strict_eq k s)
  end;
  try reflexivity;
  unfold bind at 1, assign at 1; apply status_statement.
Qed.

Lemma scan_cons (tok : string) (rest : list string) (d : SensorData) :
  scan (tok :: rest) d = scan rest (step tok (hd_error rest) d).
Proof. reflexivity. Qed.

Lemma loop_scan (parts : list string) (fuel i : nat) (d : SensorData) :
  List.length parts - i <= fuel ->
  loop parts fuel i d = Ok tt (scan (skipn i parts) d).
Proof.
  revert i d; induction fuel as [|fuel IH]; intros i d Hf; simpl.
  - rewrite skipn_all2 by lia; reflexivity.
  - destruct (Nat.ltb i (List.length parts)) eqn:L.
    + apply Nat.ltb_lt in L.
      destruct (nth_error parts i) as [tok|] eqn:E;
        [|apply nth_error_None in E; lia].
      unfold bind; rewrite (body_step _ _ _ _ E).
      rewrite IH by lia.
      rewrite (skipn_cons_nth _ _ _ E), scan_cons, hd_skipn_nth.
      replace (S i) with (i + 1) by lia; reflexivity.
    + apply Nat.ltb_ge in L.
      rewrite skipn_all2 by lia; reflexivity.
Qed.

Lemma parse_block_scan (raw : string) (d : SensorData) :
  parse_block (VStr raw) d
  = Ok tt (scan (split comma raw) (reset_sensors d)).
Proof.
  unfold parse_block, bind, assign.
  rewrite loop_scan by lia; reflexivity.
Qed.

End LoopFacts.

(** ** What the scan leaves in each field *)

Module ScanFacts.

Import Parser Scan.

(** Case analysis on the chain of key tests of [step]: the branches in
    which two different keys match are impossible. *)
Ltac key_cases :=
  repeat match goal with
  | |- context [strict_eq ?k ?s] =>
      let E := fresh "E" in destruct (strict_eq k s) eqn:E
  end;
  try reflexivity;
  try (repeat match goal with
       | H : strict_eq _ _ = true |- _ => apply strict_eq_true in H
       end; congruence).

Ltac attach_cases next :=
  unfold attach; destruct (attached next); try reflexivity.

Lemma step_timestamp tok next t d :
  step tok next (set_timestamp t d) = set_timestamp t (step tok next d).
Proof.
  unfold step; destruct (includes colon (trim tok)); [|reflexivity].
  key_cases; attach_cases next.
Qed.

Lemma step_raw tok next r d :
  step tok next (set_raw r d) = set_raw r (step tok next d).
Proof.
  unfold step; destruct (includes colon (trim tok)); [|reflexivity].
  key_cases; attach_cases next.
Qed.

Lemma step_requested tok next p d :
  step tok next (set_requestedServoPosition p d)
  = set_requestedServoPosition p (step tok next d).
Proof.
  unfold step; destruct (includes colon (trim tok)); [|reflexivity].
  key_cases; attach_cases next.
Qed.

Lemma scan_timestamp parts t d :
  scan parts (set_timestamp t d) = set_timestamp t (scan parts d).
Proof.
  revert d; induction parts as [|tok rest IH]; intros d; simpl; auto.
  now rewrite step_timestamp, IH.
Qed.

Lemma scan_raw parts r d :
  scan parts (set_raw r d) = set_raw r (scan parts d).
Proof.
  revert d; induction parts as [|tok rest IH]; intros d; simpl; auto.
  now rewrite step_raw, IH.
Qed.

Lemma scan_requested parts p d :
  scan parts (set_requestedServoPosition p d)
  = set_requestedServoPosition p (scan parts d).
Proof.
  revert d; induction parts as [|tok rest IH]; intros d; simpl; auto.
  now rewrite step_requested, IH.
Qed.

(** The scan reads nothing of the object but the three fields it does
    not assign. *)
Lemma scan_reset parts d :
  scan parts (reset_sensors d)
  = set_timestamp (timestamp d)
      (set_raw (raw d)
         (set_requestedServoPosition (requestedServoPosition d)
            (scan parts (initial 0)))).
Proof.
  rewrite <- scan_requested, <- scan_raw, <- scan_timestamp.
  reflexivity.
Qed.

Ltac step_field tok next :=
  unfold step, is_key_token;
  destruct (includes colon (trim tok)); [|reflexivity]; simpl;
  key_cases; attach_cases next.

Lemma step_moistureStatus tok next d :
  moistureStatus (step tok next d)
  = if is_key_token "Moisture" tok then
      match attached next with Some s => Some s | None => moistureStatus d end
    else moistureStatus d.
Proof. step_field tok next. Qed.

Lemma step_lightStatus tok next d :
  lightStatus (step tok next d)
  = if is_key_token "Light" tok then
      match attached next with Some s => Some s | None => lightStatus d end
    else lightStatus d.
Proof. step_field tok next. Qed.

Lemma step_waterStatus tok next d :
  waterStatus (step tok next d)
  = if is_key_token "Water" tok then
      match attached next with Some s => Some s | None => waterStatus d end
    else waterStatus d.
Proof. step_field tok next. Qed.

Lemma step_moisture tok next d :
  moisture (step tok next d)
  = if is_key_token "Moisture" tok then Some (parseInt (token_value tok))
    else moisture d.
Proof. step_field tok next. Qed.

Lemma step_light tok next d :
  light (step tok next d)
  = if is_key_token "Light" tok then Some (parseInt (token_value tok))
    else light d.
Proof. step_field tok next. Qed.

Lemma step_water tok next d :
  water (step tok next d)
  = if is_key_token "Water" tok then Some (parseInt (token_value tok))
    else water d.
Proof. step_field tok next. Qed.

Lemma step_temperature tok next d :
  temperature (step tok next d)
  = if is_key_token "Temp" tok then Some (parseFloat (token_value tok))
    else temperature d.
Proof. step_field tok next. Qed.

Lemma step_humidity tok next d :
  humidity (step tok next d)
  = if is_key_token "Humid" tok then Some (parseFloat (token_value tok))
    else humidity d.
Proof. step_field tok next. Qed.

Lemma step_servo tok next d :
  servo (step tok next d)
  = if is_key_token "Servo" tok then Some (parseInt (token_value tok))
    else servo d.
Proof. step_field tok next. Qed.

Lemma step_unknown tok next d :
  is_known tok = false -> step tok next d = d.
Proof.
  unfold is_known, known_keys, existsb, is_key_token, step.
  destruct (includes colon (trim tok)); [|reflexivity]; simpl.
  key_cases; discriminate.
Qed.

End ScanFacts.

Module FieldFacts.

Import Parser Scan ScanFacts.

Section StatusField.

Variable k : string.
Variable get : SensorData -> option string.
Hypothesis step_get : forall tok next d,
  get (step tok next d)
  = if is_key_token k tok then
      match attached next with Some s => Some s | None => get d end
    else get d.

Lemma scan_status parts d :
  get (scan parts d)
  = match status_of k parts with Some s => Some s | None => get d end.
Proof.
  revert d; induction parts as [|tok rest IH]; intros d; simpl; auto.
  rewrite IH, step_get.
  destruct (status_of k rest); auto.
  destruct (is_key_token k tok); auto.
Qed.

End StatusField.

Section NumericField.

Variable k : string.
Variable read : string -> number.
Variable get : SensorData -> option number.
Hypothesis step_get : forall tok next d,
  get (step tok next d)
  = if is_key_token k tok then Some (read (token_value tok)) else get d.

Lemma scan_value parts d :
  get (scan parts d)
  = match value_of k read parts with Some v => Some v | None => get d end.
Proof.
  revert d; induction parts as [|tok rest IH]; intros d; simpl; auto.
  rewrite IH, step_get.
  destruct (value_of k read rest); auto.
  destruct (is_key_token k tok); auto.
Qed.

End NumericField.

(** [status_of] against the positional reading of the rule. *)
Section Attachment.

Variable k : string.

Lemma attaches_zero tok rest s :
  attaches k (tok :: rest) 0 s
  <-> is_key_token k tok = true /\ attached (hd_error rest) = Some s.
Proof.
  unfold attaches, attached; simpl; split.
  - intros (tok' & nxt & H0 & Hk & H1 & Hc & ->).
    inversion H0; subst tok'; split; auto.
    destruct rest as [|y rest]; simpl in *; [discriminate|].
    inversion H1; subst y; now rewrite Hc.
  - intros (Hk & Ha).
    destruct rest as [|y rest]; simpl in *; [discriminate|].
    destruct (includes colon y) eqn:Hc; [discriminate|].
    inversion Ha; subst s.
    exists tok, y; auto.
Qed.

Lemma attaches_succ tok rest i s :
  attaches k (tok :: rest) (S i) s <-> attaches k rest i s.
Proof. unfold attaches; simpl; tauto. Qed.

Lemma attaches_functional parts i s s' :
  attaches k parts i s -> attaches k parts i s' -> s = s'.
Proof.
  intros (t1 & n1 & _ & _ & H1 & _ & ->) (t2 & n2 & _ & _ & H2 & _ & ->).
  congruence.
Qed.

Lemma status_of_none parts :
  status_of k parts = None -> forall j s, ~ attaches k parts j s.
Proof.
  induction parts as [|tok rest IH]; simpl; intros H j s Ha.
  - destruct Ha as (t & n & H0 & _); destruct j; discriminate.
  - destruct (status_of k rest) eqn:E; [discriminate|].
    destruct j as [|j].
    + apply attaches_zero in Ha; destruct Ha as (Hk & Hs).
      rewrite Hk, Hs in H; discriminate.
    + apply attaches_succ in Ha; now apply (IH eq_refl j s).
Qed.

Lemma status_of_last parts s :
  status_of k parts = Some s -> last_attached k parts s.
Proof.
  revert s; induction parts as [|tok rest IH]; simpl; intros s H;
    [discriminate|].
  destruct (status_of k rest) as [s'|] eqn:E.
  - inversion H; subst s'.
    destruct (IH s eq_refl) as (i & Ha & Hlast).
    exists (S i); split; [now apply attaches_succ|].
    intros [|j] s' Hj Hb; [lia|].
    apply attaches_succ in Hb; apply (Hlast j s'); [lia|assumption].
  - destruct (is_key_token k tok) eqn:Hk; [|discriminate].
    exists 0; split; [now apply attaches_zero|].
    intros [|j] s' Hj Hb; [lia|].
    apply attaches_succ in Hb.
    now apply (status_of_none rest E j s').
Qed.

Lemma last_attached_functional parts s s' :
  last_attached k parts s -> last_attached k parts s' -> s = s'.
Proof.
  intros (i & Hi & Li) (j & Hj & Lj).
  destruct (Nat.lt_trichotomy i j) as [H|[H|H]].
  - exfalso; exact (Li j s' H Hj).
  - subst j; exact (attaches_functional _ _ _ _ Hi Hj).
  - exfalso; exact (Lj i s H Hi).
Qed.

Lemma status_of_spec parts s :
  status_of k parts = Some s <-> last_attached k parts s.
Proof.
  split; [apply status_of_last|].
  intros H; destruct (status_of k parts) as [s'|] eqn:E.
  - f_equal; apply (last_attached_functional parts); auto.
    now apply status_of_last.
  - destruct H as (i & Hi & _).
    exfalso; exact (status_of_none parts E i s Hi).
Qed.

End Attachment.

End FieldFacts.

(** ** Lines built from groups *)

Module LineFacts.

Import Parser Scan Line.

Lemma includes_trimStart c s :
  includes c s = false -> includes c (trimStart s) = false.
Proof.
  induction s as [|a s IH]; simpl; auto.
  intros H; apply orb_false_iff in H; destruct H as [Ha Hs].
  destruct (is_whitespace a); simpl; auto.
  now rewrite Ha, Hs.
Qed.

Lemma includes_trimEnd c s :
  includes c s = false -> includes c (trimEnd s) = false.
Proof.
  induction s as [|a s IH]; simpl; auto.
  intros H; apply orb_false_iff in H; destruct H as [Ha Hs].
  destruct (is_whitespace a && (trimEnd s =? ""))%bool; simpl; auto.
  now rewrite Ha, IH.
Qed.

Lemma includes_trim c s : includes c s = false -> includes c (trim s) = false.
Proof.
  intros H; unfold trim; now apply includes_trimEnd, includes_trimStart.
Qed.

Lemma free_of_weaken (p q : ascii -> bool) s :
  (forall c, q c = true -> p c = true) ->
  free_of p s = true -> free_of q s = true.
Proof.
  intros Hpq; induction s as [|a s IH]; simpl; auto.
  intros H; apply andb_true_iff in H; destruct H as [Ha Hs].
  rewrite IH by assumption.
  destruct (q a) eqn:Q; auto.
  rewrite (Hpq a Q) in Ha; discriminate.
Qed.

Lemma free_of_includes c s :
  free_of (fun a => Ascii.eqb a c) s = true -> includes c s = false.
Proof.
  induction s as [|a s IH]; simpl; auto.
  intros H; apply andb_true_iff in H; destruct H as [Ha Hs].
  rewrite IH by assumption.
  now destruct (Ascii.eqb a c).
Qed.

Lemma trimEnd_free s : free_of is_whitespace s = true -> trimEnd s = s.
Proof.
  induction s as [|a s IH]; simpl; auto.
  intros H; apply andb_true_iff in H; destruct H as [Ha Hs].
  rewrite IH by assumption.
  now destruct (is_whitespace a).
Qed.

Lemma split_none c s : includes c s = false -> split c s = [s].
Proof.
  induction s as [|a s IH]; simpl; auto.
  intros H; apply orb_false_iff in H; destruct H as [Ha Hs].
  now rewrite Ha, IH.
Qed.

Lemma split_app c a b :
  includes c a = false ->
  split c (a ++ String c b)%string = a :: split c b.
Proof.
  induction a as [|x a IH]; simpl.
  - intros _; now rewrite Ascii.eqb_refl.
  - intros H; apply orb_false_iff in H; destruct H as [Hx Ha].
    now rewrite Hx, IH.
Qed.

Lemma split_join c toks :
  toks <> [] ->
  Forall (fun t => includes c t = false) toks ->
  split c (join c toks) = toks.
Proof.
  induction toks as [|t toks IH]; [congruence|].
  intros _ H; inversion H as [|? ? Ht Hs]; subst.
  destruct toks as [|u toks].
  - simpl; now apply split_none.
  - change (join c (t :: u :: toks))
      with (t ++ String c (join c (u :: toks)))%string.
    rewrite split_app by assumption.
    f_equal; apply IH; [discriminate|assumption].
Qed.

Lemma wf_value_comma v : wf_value v = true -> includes comma v = false.
Proof.
  intros H; apply free_of_includes; revert H; apply free_of_weaken.
  intros c ->; reflexivity.
Qed.

Lemma wf_value_colon v : wf_value v = true -> includes colon v = false.
Proof.
  intros H; apply free_of_includes; revert H; apply free_of_weaken.
  intros c ->; now rewrite orb_true_r.
Qed.

Lemma wf_value_space v : wf_value v = true -> free_of is_whitespace v = true.
Proof.
  apply free_of_weaken; intros c ->; now rewrite orb_true_r.
Qed.

Lemma wf_status_comma s : wf_status s = true -> includes comma s = false.
Proof.
  intros H; apply free_of_includes; revert H; apply free_of_weaken.
  intros c ->; reflexivity.
Qed.

Lemma wf_status_colon s : wf_status s = true -> includes colon s = false.
Proof.
  intros H; apply free_of_includes; revert H; apply free_of_weaken.
  intros c ->; now rewrite orb_true_r.
Qed.

(** A bare word is passed over. *)
Lemma step_bare tok next d : includes colon tok = false -> step tok next d = d.
Proof.
  intros H; unfold step; now rewrite (includes_trim _ _ H).
Qed.

Lemma free_of_app p a b :
  free_of p (a ++ b)%string = (free_of p a && free_of p b)%bool.
Proof.
  induction a as [|x a IH]; simpl; auto.
  now rewrite IH, andb_assoc.
Qed.

Lemma includes_app c a b :
  includes c (a ++ b)%string = (includes c a || includes c b)%bool.
Proof.
  induction a as [|x a IH]; simpl; auto.
  now rewrite IH, orb_assoc.
Qed.

Lemma trim_free s : free_of is_whitespace s = true -> trim s = s.
Proof.
  intros H; unfold trim.
  assert (E : trimStart s = s).
  { destruct s as [|a s]; simpl in *; auto.
    now destruct (is_whitespace a). }
  rewrite E; now apply trimEnd_free.
Qed.

(** A [Key:Value] token whose value is well formed: trimming changes
    nothing and the destructuring finds the key and the value. *)
Lemma key_token_shape k v :
  free_of is_whitespace k = true -> includes colon k = false ->
  wf_value v = true ->
  let tok := (k ++ String colon v)%string in
  includes colon (trim tok) = true /\ token_key tok = Some k /\
  token_value tok = v.
Proof.
  intros Hk Hc Hv tok.
  assert (T : trim tok = tok).
  { apply trim_free; unfold tok; rewrite free_of_app, Hk; simpl.
    now rewrite (wf_value_space v Hv). }
  unfold token_key, token_value; rewrite T; unfold tok.
  rewrite includes_app, split_app by assumption.
  rewrite (split_none colon v (wf_value_colon v Hv)), Hc.
  repeat split.
Qed.

Ltac key_token k v H :=
  let S := fresh in
  destruct (key_token_shape k v eq_refl eq_refl H) as (S & -> & ->);
  rewrite S; clear S.

Lemma step_group_key (g : group) (d : SensorData) :
  wf_group g = true ->
  match tokens g with
  | [key; s] =>
      includes colon s = false /\ step key (Some s) d = Line.apply g d
  | [key] =>
      forall next, step key next d = Line.apply g d
  | _ => False
  end.
Proof.
  destruct g as [v s|v s|v s|v|v|v]; intros H; simpl in H;
    try (apply andb_true_iff in H; destruct H as [H Hs];
         pose proof (wf_status_colon s Hs) as Hc).
  - change (includes colon s = false /\
            step ("Moisture" ++ String colon v)%string (Some s) d
            = Line.apply (GMoisture v s) d).
    split; [assumption|]; unfold step; key_token "Moisture" v H.
    unfold attach, attached; rewrite Hc; reflexivity.
  - change (includes colon s = false /\
            step ("Light" ++ String colon v)%string (Some s) d
            = Line.apply (GLight v s) d).
    split; [assumption|]; unfold step; key_token "Light" v H.
    unfold attach, attached; rewrite Hc; reflexivity.
  - change (includes colon s = false /\
            step ("Water" ++ String colon v)%string (Some s) d
            = Line.apply (GWater v s) d).
    split; [assumption|]; unfold step; key_token "Water" v H.
    unfold attach, attached; rewrite Hc; reflexivity.
  - change (forall next, step ("Temp" ++ String colon v)%string next d
                         = Line.apply (GTemp v) d).
    intros next; unfold step; key_token "Temp" v H; reflexivity.
  - change (forall next, step ("Humid" ++ String colon v)%string next d
                         = Line.apply (GHumid v) d).
    intros next; unfold step; key_token "Humid" v H; reflexivity.
  - change (forall next, step ("Servo" ++ String colon v)%string next d
                         = Line.apply (GServo v) d).
    intros next; unfold step; key_token "Servo" v H; reflexivity.
Qed.

(** The tokens of a group take the object to what the group assigns,
    whatever follows them. *)
Lemma scan_group (g : group) (rest : list string) (d : SensorData) :
  wf_group g = true ->
  scan (tokens g ++ rest) d = scan rest (Line.apply g d).
Proof.
  intros H; pose proof (step_group_key g d H) as K.
  destruct g as [v s|v s|v s|v|v|v];
    cbv beta iota delta [tokens] in K |- *.
  1-3: destruct K as [Hc K]; cbn [app];
       rewrite !LoopFacts.scan_cons; cbn [hd_error];
       now rewrite K, step_bare.
  all: cbn [app]; rewrite LoopFacts.scan_cons; now rewrite K.
Qed.

Lemma scan_groups (gs : list group) (d : SensorData) :
  forallb wf_group gs = true ->
  scan (flat_map tokens gs) d = fold_left (fun d g => Line.apply g d) gs d.
Proof.
  revert d; induction gs as [|g gs IH]; intros d H; simpl in *; auto.
  apply andb_true_iff in H; destruct H as [Hg Hgs].
  now rewrite scan_group, IH.
Qed.

Lemma apply_comm (g h : group) (d : SensorData) :
  kind g <> kind h ->
  Line.apply g (Line.apply h d) = Line.apply h (Line.apply g d).
Proof.
  destruct g, h; simpl; intros K; try reflexivity; congruence.
Qed.

Lemma fold_apply_perm (l l' : list group) :
  Permutation l l' ->
  (forall g h, In g l -> In h l -> g = h \/ kind g <> kind h) ->
  forall d, fold_left (fun d g => Line.apply g d) l d
            = fold_left (fun d g => Line.apply g d) l' d.
Proof.
  induction 1 as [|x l l' P IH|x y l|l l' l'' P IH P' IH']; intros K d.
  - reflexivity.
  - simpl; apply IH; intros g h Hg Hh; apply K; now right.
  - simpl; f_equal.
    destruct (K x y) as [E|E]; [right; now left|now left|now subst|].
    symmetry; now apply apply_comm.
  - rewrite IH by assumption; apply IH'.
    intros g h Hg Hh; apply K; eapply Permutation_in;
      try eassumption; now apply Permutation_sym.
Qed.

End LineFacts.

Module LineSplit.

Import Parser Scan Line LineFacts.

Lemma tokens_comma (g : group) :
  wf_group g = true -> Forall (fun t => includes comma t = false) (tokens g).
Proof.
  destruct g as [v s|v s|v s|v|v|v]; simpl; intros H;
    try (apply andb_true_iff in H; destruct H as [H Hs];
         pose proof (wf_status_comma s Hs));
    pose proof (wf_value_comma v H);
    repeat constructor; simpl; assumption.
Qed.

Lemma tokens_nonempty (g : group) : tokens g <> [].
Proof. destruct g; discriminate. Qed.

Lemma split_line (gs : list group) :
  gs <> [] -> forallb wf_group gs = true ->
  split comma (line gs) = flat_map tokens gs.
Proof.
  intros Hne Hwf; unfold line; apply split_join.
  - destruct gs as [|g gs]; [congruence|]; simpl.
    pose proof (tokens_nonempty g); destruct (tokens g); [congruence|].
    discriminate.
  - apply Forall_flat_map.
    rewrite forallb_forall in Hwf; apply Forall_forall.
    intros g Hg; apply tokens_comma; auto.
Qed.

Lemma wf_perm (l l' : list group) :
  Permutation l l' -> forallb wf_group l' = true -> forallb wf_group l = true.
Proof.
  intros P H; rewrite forallb_forall in *.
  intros g Hg; apply H; eapply Permutation_in; eassumption.
Qed.

Lemma canonical_kinds vm sm vl sl vw sw vt vh vs g h :
  In g (canonical vm sm vl sl vw sw vt vh vs) ->
  In h (canonical vm sm vl sl vw sw vt vh vs) ->
  g = h \/ kind g <> kind h.
Proof.
  unfold canonical; simpl; intros Hg Hh.
  repeat match goal with
  | H : _ \/ _ |- _ => destruct H
  | H : False |- _ => destruct H
  end; subst; simpl; auto.
Qed.

End LineSplit.

(** ** The query chain sorts and slices *)

Module MongoFacts.

Import Mongo.

Section Sorting.

Context {A : Type}.
Variable stamp : A -> Z.

Lemma insert_desc_perm x l : Permutation (insert_desc stamp x l) (x :: l).
Proof.
  induction l as [|y l IH]; simpl; auto.
  destruct (stamp x <? stamp y)%Z; auto.
  rewrite IH; apply perm_swap.
Qed.

Lemma sort_desc_perm l : Permutation (sort_desc stamp l) l.
Proof.
  induction l as [|x l IH]; simpl; auto.
  rewrite insert_desc_perm; now constructor.
Qed.

Lemma insert_desc_sorted x l :
  StronglySorted (newer stamp) l ->
  StronglySorted (newer stamp) (insert_desc stamp x l).
Proof.
  induction l as [|y l IH]; simpl; intros H.
  - repeat constructor.
  - inversion H as [|? ? Hl Hy]; subst.
    destruct (stamp x <? stamp y)%Z eqn:E.
    + apply Z.ltb_lt in E; constructor; auto.
      eapply Permutation_Forall;
        [apply Permutation_sym, insert_desc_perm|].
      constructor; auto; unfold newer; lia.
    + apply Z.ltb_ge in E; constructor; auto.
      constructor; [unfold newer; lia|].
      eapply Forall_impl; [|exact Hy].
      unfold newer; intros; lia.
Qed.

Lemma sort_desc_sorted l : StronglySorted (newer stamp) (sort_desc stamp l).
Proof.
  induction l as [|x l IH]; simpl; [constructor|].
  now apply insert_desc_sorted.
Qed.

Lemma sorted_unique (a b : list A) :
  NoDup (map stamp a) -> Permutation a b ->
  StronglySorted (newer stamp) a -> StronglySorted (newer stamp) b ->
  a = b.
Proof.
  revert b; induction a as [|x a IH]; intros b N P Sa Sb.
  - now apply Permutation_nil in P.
  - destruct b as [|y b].
    + now apply Permutation_sym, Permutation_nil in P.
    + inversion N as [|? ? Nx Na]; subst.
      inversion Sa as [|? ? Sa' Fa]; subst.
      inversion Sb as [|? ? Sb' Fb]; subst.
      assert (Iy : In y (x :: a))
        by (eapply Permutation_in;
            [apply Permutation_sym; exact P|now left]).
      assert (Ix : In x (y :: b))
        by (eapply Permutation_in; [exact P|now left]).
      assert (E : x = y).
      { destruct Iy as [E|Iy]; [exact E|].
        destruct Ix as [E|Ix]; [now symmetry|].
        rewrite Forall_forall in Fa, Fb.
        pose proof (Fa y Iy) as H1; pose proof (Fb x Ix) as H2.
        unfold newer in H1, H2.
        exfalso; apply Nx.
        replace (stamp x) with (stamp y) by lia.
        now apply in_map. }
      subst y; f_equal.
      apply IH; auto.
      eapply Permutation_cons_inv; exact P.
Qed.

Lemma take_length limit (l : list A) :
  (0 < limit)%Z -> List.length (take limit l) <= Z.to_nat limit.
Proof.
  intros H; unfold take.
  replace (limit =? 0)%Z with false by (symmetry; apply Z.eqb_neq; lia).
  rewrite Z.abs_eq by lia; rewrite length_firstn; lia.
Qed.

Lemma find_sorted_rows coll skip limit :
  (0 < limit)%Z -> (0 <= skip)%Z ->
  find_sorted stamp coll skip limit
  = Some (firstn (Z.to_nat limit)
            (skipn (Z.to_nat skip) (sort_desc stamp coll))).
Proof.
  intros Hl Hs; unfold find_sorted, take.
  replace (skip <? 0)%Z with false by (symmetry; apply Z.ltb_ge; lia).
  replace (limit =? 0)%Z with false by (symmetry; apply Z.eqb_neq; lia).
  now rewrite Z.abs_eq by lia.
Qed.

End Sorting.

End MongoFacts.

(** ** The handlers on the lines of the device *)

Module Examples.

Import Parser Scan Server.

Example full_line :
  parse_block
    (VStr "Moisture:1234,DRY,Light:3456,BRIGHT,Water:789,MEDIUM,Temp:25.0,Humid:60.0,Servo:90")
    (initial 0)
  = Ok tt
      (mkSensorData 0
         (Some (Finite false 1234 0)) (Some "DRY")
         (Some (Finite false 3456 0)) (Some "BRIGHT")
         (Some (Finite false 789 0)) (Some "MEDIUM")
         (Some (Finite false 250 (-1))) (Some (Finite false 600 (-1)))
         (Some (Finite false 90 0))
         (VStr "") VUndefined).
Proof. reflexivity. Qed.

Example two_keys :
  Scan.parse "Temp:25.0,Humid:60.0"
  = mkSensorData 0 None None None None None None
      (Some (Finite false 250 (-1))) (Some (Finite false 600 (-1))) None
      (VStr "") VUndefined.
Proof. reflexivity. Qed.

(** A second ingest without a key of the first shows that field absent. *)
Example no_leak :
  let w1 := world (post_data 1 (VStr "Moisture:5,WET,Temp:20") (fresh 0)) in
  let w2 := world (post_data 2 (VStr "Temp:21") w1) in
  moisture (mem w1) = Some (Finite false 5 0) /\
  moistureStatus (mem w1) = Some "WET" /\
  moisture (mem w2) = None /\ moistureStatus (mem w2) = None /\
  temperature (mem w2) = Some (Finite false 21 0) /\
  timestamp (mem w2) = 2%Z /\ raw (mem w2) = VStr "Temp:21".
Proof. repeat split. Qed.

(** A payload that is not a string raises at [split]: the block is left
    before the reset, so the sensor fields stay, and [raw] holds the
    payload as it came. *)
Example not_a_string :
  let w1 := world (post_data 1 (VStr "Moisture:5,WET") (fresh 0)) in
  let x := post_data 2 VUndefined w1 in
  status (response x) = 200 /\
  moisture (mem (world x)) = Some (Finite false 5 0) /\
  raw (mem (world x)) = VUndefined /\
  timestamp (mem (world x)) = 2%Z /\
  hd_error (started x) = Some (SaveErrorLog "Error parsing sensor data").
Proof. repeat split. Qed.

End Examples.

(** * The claims *)

Module Claims.

Import Parser Scan Line Server.
Import LoopFacts ScanFacts FieldFacts LineFacts LineSplit MongoFacts.

(** The fields of a line scanned after the reset. *)
Lemma scanned_status k get parts d :
  (forall tok next d',
     get (step tok next d')
     = if is_key_token k tok then
         match attached next with Some s => Some s | None => get d' end
       else get d') ->
  get (reset_sensors d) = None ->
  get (scan parts (reset_sensors d)) = status_of k parts.
Proof.
  intros Hs Hr; rewrite (scan_status k get Hs), Hr.
  now destruct (status_of k parts).
Qed.

Lemma scanned_value k read get parts d :
  In (k, read, get) numeric_fields ->
  get (scan parts (reset_sensors d)) = value_of k read parts.
Proof.
  unfold numeric_fields; simpl; intros H.
  repeat match goal with
  | H : _ \/ _ |- _ => destruct H as [H|H]
  | H : False |- _ => destruct H
  | H : (_, _, _) = (_, _, _) |- _ => inversion H; subst; clear H
  end;
  [ rewrite (scan_value _ _ _ step_moisture)
  | rewrite (scan_value _ _ _ step_light)
  | rewrite (scan_value _ _ _ step_water)
  | rewrite (scan_value _ _ _ step_temperature)
  | rewrite (scan_value _ _ _ step_humidity)
  | rewrite (scan_value _ _ _ step_servo) ];
  match goal with |- context [value_of ?k ?r ?p] =>
    now destruct (value_of k r p) end.
Qed.

Lemma step_numeric k read get tok next d :
  In (k, read, get) numeric_fields ->
  is_key_token k tok = true ->
  get (step tok next d) = Some (read (token_value tok)).
Proof.
  unfold numeric_fields; simpl; intros H K.
  repeat match goal with
  | H : _ \/ _ |- _ => destruct H as [H|H]
  | H : False |- _ => destruct H
  | H : (_, _, _) = (_, _, _) |- _ => inversion H; subst; clear H
  end;
  [ rewrite step_moisture | rewrite step_light | rewrite step_water
  | rewrite step_temperature | rewrite step_humidity | rewrite step_servo ];
  now rewrite K.
Qed.

(** C3: for every line, the parser leaves a status for Moisture, Light or
    Water exactly when a token of that key is immediately followed, in the
    comma-split sequence, by a token without a colon; the status is that
    following token, trimmed (of the last such pair when the key occurs
    more than once).  A status word before its key, or separated from it
    by a [Key:Value] token, is not attached, and an iteration on a bare
    word changes nothing and raises nothing. *)
Theorem status_attachment (rawData : string) (d : SensorData) :
  let parts := split comma rawData in
  let r := final_state (parse_block (VStr rawData) d) in
  (forall s, moistureStatus r = Some s <-> last_attached "Moisture" parts s) /\
  (forall s, lightStatus r = Some s <-> last_attached "Light" parts s) /\
  (forall s, waterStatus r = Some s <-> last_attached "Water" parts s) /\
  (forall i tok d',
     nth_error parts i = Some tok -> includes colon tok = false ->
     body parts i d' = Ok tt d') /\
  moistureStatus
    (final_state (parse_block (VStr "DRY,Moisture:5") d)) = None /\
  moistureStatus
    (final_state (parse_block (VStr "Moisture:5,Temp:3,DRY") d)) = None /\
  moistureStatus
    (final_state (parse_block (VStr "Moisture:5, DRY ,Temp:3") d))
  = Some "DRY".
Proof.
  intros parts r; subst r; rewrite !parse_block_scan; cbn [final_state].
  fold parts.
  rewrite (scanned_status "Moisture" moistureStatus parts d
             step_moistureStatus eq_refl).
  rewrite (scanned_status "Light" lightStatus parts d
             step_lightStatus eq_refl).
  rewrite (scanned_status "Water" waterStatus parts d
             step_waterStatus eq_refl).
  repeat split; try apply status_of_spec.
  - intros i tok d' Hi Hc.
    rewrite (body_step _ _ _ _ Hi); now rewrite step_bare.
Qed.

(** C6: on every string the parsing block completes without raising and
    has scanned every token; each numeric field holds what its reader
    returns on the value of the last token of its key, which is the
    not-a-number sentinel when the value does not parse, and the tokens
    after such a value are still read; a token of no known key changes
    nothing. *)
Theorem parser_total (rawData : string) (d : SensorData) :
  let parts := split comma rawData in
  exists r,
    parse_block (VStr rawData) d = Ok tt r /\
    r = scan parts (reset_sensors d) /\
    (forall k read get, In (k, read, get) numeric_fields ->
       get r = value_of k read parts) /\
    (forall i tok d', nth_error parts i = Some tok ->
       exists d'', body parts i d' = Ok tt d'' /\
         (is_known tok = false -> d'' = d') /\
         (forall k read get, In (k, read, get) numeric_fields ->
            is_key_token k tok = true ->
            get d'' = Some (read (token_value tok)))) /\
    (let x := final_state
                (parse_block (VStr "Moisture:abc,Temp:25.0,Servo:,Humid:6") d)
     in moisture x = Some NaN /\ servo x = Some NaN /\
        temperature x = Some (Finite false 250 (-1)) /\
        humidity x = Some (Finite false 6 0)).
Proof.
  intros parts; exists (scan parts (reset_sensors d)).
  split; [apply parse_block_scan|]; split; [reflexivity|].
  split; [intros k read get H; now apply (scanned_value k read get)|].
  split.
  - intros i tok d' Hi; exists (step tok (nth_error parts (i + 1)) d').
    split; [now apply body_step|]; split.
    + now apply step_unknown.
    + intros k read get H K; now apply (step_numeric k read get).
  - rewrite parse_block_scan; cbn [final_state].
    rewrite (scanned_value "Moisture" parseInt moisture) by (simpl; tauto).
    rewrite (scanned_value "Servo" parseInt servo) by (simpl; tauto).
    rewrite (scanned_value "Temp" parseFloat temperature) by (simpl; tauto).
    rewrite (scanned_value "Humid" parseFloat humidity) by (simpl; tauto).
    repeat split.
Qed.

Lemma post_data_mem (now : Z) (rawData : string) (w : World) :
  mem (world (post_data now (VStr rawData) w))
  = set_timestamp now
      (set_raw (VStr rawData)
         (set_requestedServoPosition (requestedServoPosition (mem w))
            (Scan.parse rawData))).
Proof.
  unfold post_data, world; cbn [fst snd mem set_mem].
  rewrite parse_block_scan; cbn [final_state].
  rewrite scan_reset; reflexivity.
Qed.

(** Ingest of a string: the object is stamped with the instant of the
    request, [raw] holds the string itself, and every sensor field holds
    what the line alone determines: the object is the line parsed from an
    empty reading, so a field whose key is not in the line is absent
    whatever it held before. *)
Theorem ingest_replaces_reading (now : Z) (rawData : string) (w : World) :
  let parts := split comma rawData in
  let d := mem (world (post_data now (VStr rawData) w)) in
  timestamp d = now /\
  raw d = VStr rawData /\
  moisture d = value_of "Moisture" parseInt parts /\
  moistureStatus d = status_of "Moisture" parts /\
  light d = value_of "Light" parseInt parts /\
  lightStatus d = status_of "Light" parts /\
  water d = value_of "Water" parseInt parts /\
  waterStatus d = status_of "Water" parts /\
  temperature d = value_of "Temp" parseFloat parts /\
  humidity d = value_of "Humid" parseFloat parts /\
  servo d = value_of "Servo" parseInt parts /\
  d = set_timestamp now
        (set_raw (VStr rawData)
           (set_requestedServoPosition (requestedServoPosition (mem w))
              (Scan.parse rawData))).
Proof.
  intros parts d; pose proof (post_data_mem now rawData w) as E; revert E.
  subst d; unfold post_data, world; cbn [fst snd mem set_mem].
  rewrite parse_block_scan; cbn [final_state]; fold parts.
  set (d0 := set_timestamp now (set_raw (VStr rawData) (mem w))).
  intros E.
  split; [now rewrite E|]; split; [now rewrite E|].
  rewrite (scanned_value "Moisture" parseInt moisture) by (simpl; tauto).
  rewrite (scanned_value "Light" parseInt light) by (simpl; tauto).
  rewrite (scanned_value "Water" parseInt water) by (simpl; tauto).
  rewrite (scanned_value "Temp" parseFloat temperature) by (simpl; tauto).
  rewrite (scanned_value "Humid" parseFloat humidity) by (simpl; tauto).
  rewrite (scanned_value "Servo" parseInt servo) by (simpl; tauto).
  rewrite (scanned_status "Moisture" moistureStatus parts d0
             step_moistureStatus eq_refl).
  rewrite (scanned_status "Light" lightStatus parts d0
             step_lightStatus eq_refl).
  rewrite (scanned_status "Water" waterStatus parts d0
             step_waterStatus eq_refl).
  repeat split; exact E.
Qed.

(** C2: when the payload is not a string (a body without [data], a
    number, [null]) parsing fails entirely: [split] raises before the
    resets, the inner [catch] takes it, and the handler still answers
    success.  The object is stamped anew, but [raw] holds the payload as
    it came, absent when [data] was missing, and all nine sensor fields
    keep the values of the previous ingest; the error goes to the log. *)
Theorem ingest_without_string_keeps_stale
    (now : Z) (data : value) (w : World) :
  (forall s, data <> VStr s) ->
  let x := post_data now data w in
  status (response x) = 200 /\
  payload (response x)
  = [("status", JStr "success"); ("message", JStr "Data received")] /\
  timestamp (mem (world x)) = now /\
  raw (mem (world x)) = data /\
  moisture (mem (world x)) = moisture (mem w) /\
  moistureStatus (mem (world x)) = moistureStatus (mem w) /\
  light (mem (world x)) = light (mem w) /\
  lightStatus (mem (world x)) = lightStatus (mem w) /\
  water (mem (world x)) = water (mem w) /\
  waterStatus (mem (world x)) = waterStatus (mem w) /\
  temperature (mem (world x)) = temperature (mem w) /\
  humidity (mem (world x)) = humidity (mem w) /\
  servo (mem (world x)) = servo (mem w) /\
  hd_error (started x) = Some (SaveErrorLog "Error parsing sensor data").
Proof.
  intros H; destruct data as [| |b|n|s]; try (repeat split; fail).
  now destruct (H s).
Qed.

Lemma ingest_without_string_keeps_stale_witness :
  (forall s, VUndefined <> VStr s) /\
  moisture
    (mem (world (post_data 2 VUndefined
                   (world (post_data 1 (VStr "Moisture:5,WET") (fresh 0))))))
  = Some (Finite false 5 0) /\
  moistureStatus
    (mem (world (post_data 2 VUndefined
                   (world (post_data 1 (VStr "Moisture:5,WET") (fresh 0))))))
  = Some "WET" /\
  raw
    (mem (world (post_data 2 VUndefined
                   (world (post_data 1 (VStr "Moisture:5,WET") (fresh 0))))))
  = VUndefined.
Proof.
  assert (N : forall s, VUndefined <> VStr s) by discriminate.
  split; [exact N|].
  destruct (ingest_without_string_keeps_stale 2 VUndefined
              (world (post_data 1 (VStr "Moisture:5,WET") (fresh 0))) N)
    as (_ & _ & _ & R & M & S & _).
  rewrite M, S, R; repeat split.
Defined.

(** C5: a line made of the six key groups, each value free of commas,
    colons and white space and each status word free of commas and colons,
    parses to the same reading in whatever order the groups come: every
    value read by its key's reader and every status trimmed. *)
Theorem parse_order_independent
    (vm sm vl sl vw sw vt vh vs : string) (gs : list group) (d : SensorData) :
  forallb wf_group (canonical vm sm vl sl vw sw vt vh vs) = true ->
  Permutation gs (canonical vm sm vl sl vw sw vt vh vs) ->
  parse_block (VStr (line gs)) d
  = Ok tt (reading vm sm vl sl vw sw vt vh vs d).
Proof.
  intros Hwf P.
  assert (Hgs : forallb wf_group gs = true) by (eapply wf_perm; eassumption).
  assert (Hne : gs <> []).
  { intros ->; apply Permutation_nil in P; discriminate. }
  rewrite parse_block_scan, split_line, scan_groups by assumption.
  rewrite <- (fold_apply_perm _ _ (Permutation_sym P)).
  - reflexivity.
  - apply canonical_kinds.
Qed.

Lemma parse_order_independent_witness :
  parse_block
    (VStr "Servo:90,Humid:60.0,Temp:25.0,Water:789,MEDIUM,Light:3456,BRIGHT,Moisture:1234,DRY")
    (initial 0)
  = Ok tt (reading "1234" "DRY" "3456" "BRIGHT" "789" "MEDIUM"
             "25.0" "60.0" "90" (initial 0)).
Proof.
  apply (parse_order_independent "1234" "DRY" "3456" "BRIGHT" "789" "MEDIUM"
           "25.0" "60.0" "90"
           (rev (canonical "1234" "DRY" "3456" "BRIGHT" "789" "MEDIUM"
                   "25.0" "60.0" "90"))).
  - reflexivity.
  - apply Permutation_sym, Permutation_rev.
Defined.

(** C4: after [POST /servo] with a number, the first [GET /servo-check]
    answers success with that number and empties the slot, and the next
    one answers [no_request] and changes nothing; a pending 0 is delivered
    as a success with position 0, which is not the [no_request] answer. *)
Theorem poll_delivers_once (now : Z) (p : number) (w : World) :
  let w1 := world (post_servo now (VNum p) w) in
  let first := servo_check w1 in
  let second := servo_check (world first) in
  status (response first) = 200 /\
  payload (response first)
  = [("status", JStr "success"); ("position", json_of_number p)] /\
  requestedServoPosition (mem (world first)) = VUndefined /\
  status (response second) = 200 /\
  payload (response second) = [("status", JStr "no_request")] /\
  world second = world first /\
  payload (response (servo_check (world (post_servo now (VNum (of_Z 0)) w))))
  = [("status", JStr "success"); ("position", JNum (Finite false 0 0))] /\
  payload (response (servo_check (world (post_servo now (VNum (of_Z 0)) w))))
  <> payload (response second).
Proof.
  repeat split; discriminate.
Qed.

Lemma settle_mem (t : task) (o : outcome) (w : World) :
  mem (settle t o w) = mem w.
Proof.
  destruct t; simpl; unfold saveErrorLog, saveLog;
    repeat match goal with
    | |- context [if ?b then _ else _] => destruct b
    end; reflexivity.
Qed.

Lemma settle_all_mem (ts : list (task * outcome)) (w : World) :
  mem (settle_all ts w) = mem w.
Proof.
  revert w; induction ts as [|[t o] ts IH]; intros w; simpl; auto.
  now rewrite IH, settle_mem.
Qed.

Lemma post_data_requested (now : Z) (data : value) (w : World) :
  requestedServoPosition (mem (world (post_data now data w)))
  = requestedServoPosition (mem w).
Proof.
  unfold post_data, world; cbn [fst snd mem set_mem].
  destruct data; try reflexivity.
  rewrite parse_block_scan; cbn [final_state].
  rewrite scan_reset; reflexivity.
Qed.

(** C9: the reading and the pending command share one object and do not
    disturb each other.  [POST /data], whatever its payload and however
    its writes end, leaves [requestedServoPosition] as it was;
    [GET /servo-check] leaves every field of the reading as it was; and
    [GET /data] writes the pending command into its answer exactly when
    one is set. *)
Theorem reading_mailbox_frame :
  (forall now data w outs,
     let x := post_data now data w in
     requestedServoPosition (mem (world x)) = requestedServoPosition (mem w) /\
     requestedServoPosition
       (mem (settle_all (combine (started x) outs) (world x)))
     = requestedServoPosition (mem w)) /\
  (forall w, snapshot (mem (world (servo_check w))) = snapshot (mem w)) /\
  (forall w j,
     json_of_value (requestedServoPosition (mem w)) = Some j ->
     In ("requestedServoPosition", j) (payload (response (get_data w)))) /\
  (forall w,
     requestedServoPosition (mem w) = VUndefined ->
     ~ In "requestedServoPosition"
         (map fst (payload (response (get_data w))))) /\
  (forall w, world (get_data w) = w).
Proof.
  split; [|split; [|split; [|split]]].
  - intros now data w outs x; split.
    + apply post_data_requested.
    + rewrite settle_all_mem; apply post_data_requested.
  - intros w; unfold servo_check.
    now destruct (negb (is_undefined (requestedServoPosition (mem w)))).
  - intros w j H; unfold get_data, response, stringify; cbn [fst payload].
    apply in_or_app; right; apply in_or_app; right.
    unfold prop; rewrite H; now left.
  - intros w H; unfold get_data, response, stringify; cbn [fst payload].
    rewrite H; cbn [prop json_of_value map app fst].
    rewrite app_nil_r; intros K.
    repeat (destruct K as [K|K]; [discriminate|]).
    unfold prop in K.
    destruct (json_of_value (raw (mem w))); simpl in K;
      [destruct K as [K|K]; [discriminate|exact K]|exact K].
  - reflexivity.
Qed.

(** C7: [POST /data] answers success before any durable write has ended,
    and no ending of those writes, failed or not, changes the object: the
    reading parsed from the call stays.  Each write is reported on its
    own: a failed file append does not keep the document from being
    saved, and a failed save does not keep the line from being appended. *)
Theorem durable_failures_isolated (now : Z) (data : value) (w : World) :
  let x := post_data now data w in
  status (response x) = 200 /\
  payload (response x)
  = [("status", JStr "success"); ("message", JStr "Data received")] /\
  (forall outs,
     mem (settle_all (combine (started x) outs) (world x)) = mem (world x)) /\
  (forall rawData o1 o2, data = VStr rawData ->
     let w' := settle_all (combine (started x) [o1; o2]) (world x) in
     (write_ok o1 = true ->
      In (SensorLogFile, now, data) (files w')) /\
     (write_ok o1 = false ->
      In "Error writing to log file:" (console w')) /\
     (write_ok o2 = true ->
      In (snapshot (mem (world x))) (sensorColl w')) /\
     (write_ok o2 = false ->
      In "Error saving to MongoDB:" (console w'))).
Proof.
  intros x; split; [reflexivity|]; split; [reflexivity|].
  split; [intros outs; apply settle_all_mem|].
  intros rawData o1 o2 ->.
  assert (Ht : timestamp (mem (world (post_data now (VStr rawData) w))) = now)
    by now rewrite post_data_mem.
  subst x; unfold post_data, started, world in *; cbn [fst snd] in *.
  rewrite parse_block_scan in *; cbn [final_state raised app combine] in *.
  cbn [mem set_mem] in Ht; rewrite Ht.
  unfold settle_all, settle, saveErrorLog, saveLog.
  destruct (write_ok o1), (write_ok o2), (log_ok o2), (errlog_ok o1);
    simpl; repeat split; intros; try discriminate;
    repeat (try (left; reflexivity); right);
    rewrite ?in_app_iff; simpl; auto 10.
Qed.

(** C1: the Express handler of [POST /servo] does not validate.  Position
    200, like a position that is not a number, is answered with status 200
    and stored as the pending command; the Next.js route of the same
    repository refuses both with status 400, as it does every integer
    outside 0..180 and nothing inside. *)
Theorem servo_post_unvalidated (now : Z) (w : World) :
  let x := post_servo now (VNum (of_Z 200)) w in
  let y := post_servo now (VStr "left") w in
  status (response x) = 200 /\
  requestedServoPosition (mem (world x)) = VNum (of_Z 200) /\
  status (response y) = 200 /\
  requestedServoPosition (mem (world y)) = VStr "left" /\
  status (Route.POST (Some (VNum (of_Z 200)))) = 400 /\
  status (Route.POST (Some (VStr "left"))) = 400 /\
  (forall z, Route.invalid (VNum (of_Z z))
             = negb ((0 <=? z)%Z && (z <=? 180)%Z)).
Proof.
  repeat split.
  intros z; unfold Route.invalid, of_Z, lt_int, gt_int, scaled.
  cbn [Z.leb Z.compare Z.opp Z.pow Z.pow_pos Pos.iter Z.mul Pos.mul].
  rewrite N2Z.inj_abs_N.
  destruct (Z.ltb_spec z 0) as [L|L].
  - rewrite Z.abs_neq by lia.
    replace (- - z * 1 <? 0)%Z with true by (symmetry; apply Z.ltb_lt; lia).
    replace (0 <=? z)%Z with false by (symmetry; apply Z.leb_gt; lia).
    reflexivity.
  - rewrite Z.abs_eq by lia.
    replace (z * 1 <? 0)%Z with false by (symmetry; apply Z.ltb_ge; lia).
    replace (0 <=? z)%Z with true by (symmetry; apply Z.leb_le; lia).
    simpl; destruct (Z.leb_spec z 180) as [U|U].
    + symmetry; apply Z.ltb_ge in U. 
      replace (180 <? z * 1)%Z with false
        by (symmetry; apply Z.ltb_ge; lia); reflexivity.
    + replace (180 <? z * 1)%Z with true
        by (symmetry; apply Z.ltb_lt; lia); reflexivity.
Qed.

Lemma sort_five (d1 d2 d3 d4 d5 : SensorDoc) :
  (doc_timestamp d1 < doc_timestamp d2 < doc_timestamp d3)%Z ->
  (doc_timestamp d3 < doc_timestamp d4 < doc_timestamp d5)%Z ->
  Mongo.sort_desc doc_timestamp [d1; d2; d3; d4; d5] = [d5; d4; d3; d2; d1].
Proof.
  intros H H'; unfold Mongo.sort_desc; simpl.
  repeat match goal with
  | |- context [(?a <? ?b)%Z] =>
      first [ replace (a <? b)%Z with true by (symmetry; apply Z.ltb_lt; lia)
            | replace (a <? b)%Z with false by (symmetry; apply Z.ltb_ge; lia) ];
      simpl
  end.
  reflexivity.
Qed.

(** C8: the history query returns the stored readings newest first, after
    the first [skip] of them and no more than [limit]; left to its defaults
    it returns the 100 newest; it changes nothing, an empty collection
    gives the empty sequence, and over five readings of increasing time
    stamps [limit=2, skip=0] gives the two newest, newest first. *)
Theorem history_newest_first (w : World) (limit skip : Z) :
  (0 < limit)%Z -> (0 <= skip)%Z ->
  let sorted := Mongo.sort_desc doc_timestamp (sensorColl w) in
  let rows := firstn (Z.to_nat limit) (skipn (Z.to_nat skip) sorted) in
  Permutation sorted (sensorColl w) /\
  StronglySorted (Mongo.newer doc_timestamp) sorted /\
  getHistoricalData (Some limit) (Some skip) w = Ok rows w /\
  List.length rows <= Z.to_nat limit /\
  getHistoricalData None None w = Ok (firstn 100 sorted) w /\
  get_history None None w = (mkResponse 200 (Rows (firstn 100 sorted)), w, []) /\
  (sensorColl w = [] ->
   getHistoricalData (Some limit) (Some skip) w = Ok [] w) /\
  (forall d1 d2 d3 d4 d5,
     sensorColl w = [d1; d2; d3; d4; d5] ->
     (doc_timestamp d1 < doc_timestamp d2 < doc_timestamp d3)%Z ->
     (doc_timestamp d3 < doc_timestamp d4 < doc_timestamp d5)%Z ->
     get_history (Some "2") (Some "0") w
     = (mkResponse 200 (Rows [d5; d4]), w, [])).
Proof.
  intros Hl Hs sorted rows.
  assert (Q : getHistoricalData (Some limit) (Some skip) w = Ok rows w).
  { unfold getHistoricalData; now rewrite find_sorted_rows. }
  split; [apply sort_desc_perm|].
  split; [apply sort_desc_sorted|].
  split; [exact Q|].
  split; [subst rows; rewrite length_firstn; lia|].
  split; [reflexivity|]; split; [reflexivity|]; split.
  - intros E; rewrite Q; subst rows sorted; rewrite E; simpl.
    now rewrite skipn_nil, firstn_nil.
  - intros d1 d2 d3 d4 d5 E H H'.
    unfold get_history, getHistoricalData.
    change (query_int (Some "2") 100) with 2%Z.
    change (query_int (Some "0") 0) with 0%Z.
    rewrite find_sorted_rows, E, sort_five by (assumption || lia).
    reflexivity.
Qed.

Lemma history_newest_first_witness :
  List.length (sensorColl five_readings) = 5 /\
  match getHistoricalData (Some 2%Z) (Some 0%Z) five_readings with
  | Ok rows w' => map doc_timestamp rows = [5%Z; 4%Z] /\ w' = five_readings
  | Throw _ _ => False
  end.
Proof.
  split; [reflexivity|].
  destruct (history_newest_first five_readings 2 0 ltac:(lia) ltac:(lia))
    as (_ & _ & -> & _).
  split; reflexivity.
Defined.

Lemma to_int_of_Z (d : Z) : to_int (of_Z d) = d.
Proof.
  unfold of_Z, to_int; rewrite N2Z.inj_abs_N.
  destruct (Z.ltb_spec d 0); [rewrite Z.abs_neq|rewrite Z.abs_eq]; lia.
Qed.

Lemma query_int_default (q : option string) (d : Z) :
  truthy (parseInt (to_string q)) = false -> query_int q d = d.
Proof.
  unfold query_int, or_default; intros ->; apply to_int_of_Z.
Qed.

(** C10: on [/data/history] and on [/logs], a [limit] that [parseInt]
    reads as 0 or as not a number (a missing one included) is falsy and
    becomes 100, and such a [skip] becomes 0: a request with [limit=0] is
    answered with the 100 newest records after the skipped ones, so with
    at least one whenever one is stored and none is skipped. *)
Theorem zero_limit_defaults (limit : option string) (w : World) :
  truthy (parseInt (to_string limit)) = false ->
  let sorted := Mongo.sort_desc doc_timestamp (sensorColl w) in
  query_int limit 100 = 100%Z /\
  (forall skip, (0 <= query_int skip 0)%Z ->
     get_history limit skip w
     = (mkResponse 200
          (Rows (firstn 100 (skipn (Z.to_nat (query_int skip 0)) sorted))),
        w, [])) /\
  (forall skip, truthy (parseInt (to_string skip)) = false ->
     query_int skip 0 = 0%Z /\
     get_history limit skip w = (mkResponse 200 (Rows (firstn 100 sorted)), w, [])) /\
  (sensorColl w <> [] -> firstn 100 sorted <> []) /\
  (forall parseDate q, q_limit q = limit ->
     opt_limit (log_options q) = Some 100%Z /\
     (truthy (parseInt (to_string (q_skip q))) = false ->
      opt_skip (log_options q) = Some 0%Z /\
      (q_startDate q = None -> q_endDate q = None ->
       get_logs parseDate q w
       = (mkResponse 200
            (Rows (firstn 100
                     (Mongo.sort_desc log_timestamp
                        (filter (type_filter (q_type q)) (logColl w))))),
          w, [])))).
Proof.
  intros Hl sorted.
  pose proof (query_int_default limit 100 Hl) as L.
  assert (H : forall skip, (0 <= query_int skip 0)%Z ->
            get_history limit skip w
            = (mkResponse 200
                 (Rows (firstn 100
                          (skipn (Z.to_nat (query_int skip 0)) sorted))),
               w, [])).
  { intros skip Hs; unfold get_history, getHistoricalData; rewrite L.
    rewrite find_sorted_rows by lia; reflexivity. }
  split; [exact L|]; split; [exact H|]; split; [|split].
  - intros skip Hs; pose proof (query_int_default skip 0 Hs) as K.
    split; [exact K|].
    rewrite H by lia; now rewrite K.
  - intros Hne E; apply Hne.
    pose proof (sort_desc_perm doc_timestamp (sensorColl w)) as P.
    fold sorted in P; destruct sorted as [|x l]; [|discriminate].
    now apply Permutation_nil.
  - intros parseDate q <-; unfold log_options at 1; cbn [opt_limit].
    rewrite L; split; [reflexivity|].
    intros Hs; pose proof (query_int_default (q_skip q) 0 Hs) as K.
    unfold log_options at 1; cbn [opt_skip].
    rewrite K; split; [reflexivity|].
    intros Es Ee; unfold get_logs, getLogs, bound, log_options.
    cbn [opt_limit opt_skip opt_startDate opt_endDate opt_type].
    rewrite Es, Ee, L, K; cbn [given].
    rewrite find_sorted_rows by lia.
    change (Z.to_nat 0) with 0; cbn [skipn].
    rewrite (filter_ext _ (type_filter (q_type q)));
      [reflexivity|].
    intros r; now rewrite !andb_true_r.
Qed.

Lemma zero_limit_defaults_witness :
  truthy (parseInt "0") = false /\
  get_history (Some "0") None five_readings
  = (mkResponse 200 (Rows (Mongo.sort_desc doc_timestamp
                             (sensorColl five_readings))),
     five_readings, []) /\
  List.length (sensorColl five_readings) = 5.
Proof.
  split; [reflexivity|].
  destruct (zero_limit_defaults (Some "0") five_readings eq_refl)
    as (_ & _ & H & _).
  destruct (H None eq_refl) as (_ & ->).
  split; vm_compute; reflexivity.
Defined.

End Claims.

(** * Further properties of the code *)

(** ** Numeric fields by position *)

Module ValueFacts.

Import Parser Scan Value FieldFacts.

Section Reading.

Variable k : string.
Variable read : string -> number.

Lemma value_of_none parts :
  value_of k read parts = None ->
  forall j tok, nth_error parts j = Some tok -> is_key_token k tok = false.
Proof.
  induction parts as [|t rest IH]; simpl; intros H j tok Hj.
  - destruct j; discriminate.
  - destruct (value_of k read rest) eqn:E; [discriminate|].
    destruct (is_key_token k t) eqn:K; [discriminate|].
    destruct j as [|j]; simpl in Hj.
    + now inversion Hj; subst.
    + now apply (IH eq_refl j).
Qed.

Lemma value_of_last parts v :
  value_of k read parts = Some v -> last_read k read parts v.
Proof.
  revert v; induction parts as [|t rest IH]; simpl; intros v H;
    [discriminate|].
  destruct (value_of k read rest) as [v'|] eqn:E.
  - inversion H; subst v'.
    destruct (IH v eq_refl) as (i & (tok & Hi & Hk & Hv) & Hlast).
    exists (S i); split; [exists tok; auto|].
    intros [|j] tok' Hj Hn; [lia|].
    apply (Hlast j tok'); [lia|exact Hn].
  - destruct (is_key_token k t) eqn:K; [|discriminate].
    inversion H; subst v.
    exists 0; split; [exists t; auto|].
    intros [|j] tok' Hj Hn; [lia|].
    exact (value_of_none rest E j tok' Hn).
Qed.

Lemma last_read_functional parts v v' :
  last_read k read parts v -> last_read k read parts v' -> v = v'.
Proof.
  intros (i & (t & Hi & Ki & ->) & Li) (j & (u & Hj & Kj & ->) & Lj).
  destruct (Nat.lt_trichotomy i j) as [H|[H|H]].
  - rewrite (Li j u H Hj) in Kj; discriminate.
  - subst j; congruence.
  - rewrite (Lj i t H Hi) in Ki; discriminate.
Qed.

Lemma value_of_spec parts v :
  value_of k read parts = Some v <-> last_read k read parts v.
Proof.
  split; [apply value_of_last|].
  intros H; destruct (value_of k read parts) as [v'|] eqn:E.
  - f_equal; apply (last_read_functional parts); auto.
    now apply value_of_last.
  - destruct H as (i & (t & Hi & Ki & _) & _).
    rewrite (value_of_none parts E i t Hi) in Ki; discriminate.
Qed.

End Reading.

End ValueFacts.

(** ** Bare lines, padded tokens, extra colons *)

Module TokenFacts.

Import Parser Scan Line LineFacts LoopFacts Padding.

Lemma split_keeps_free (c sep : ascii) (s : string) :
  includes c s = false ->
  Forall (fun t => includes c t = false) (split sep s).
Proof.
  induction s as [|a s IH]; simpl; intros H.
  - repeat constructor.
  - apply orb_false_iff in H; destruct H as [Ha Hs].
    specialize (IH Hs).
    destruct (Ascii.eqb a sep).
    + constructor; auto.
    + destruct (split sep s) as [|h t].
      * constructor; [simpl; now rewrite Ha|constructor].
      * inversion IH as [|? ? Hh Ht]; subst.
        constructor; [simpl; now rewrite Ha, Hh|assumption].
Qed.

Lemma scan_bare (parts : list string) (d : SensorData) :
  Forall (fun t => includes colon t = false) parts -> scan parts d = d.
Proof.
  induction 1 as [|t rest Ht Hrest IH]; simpl; auto.
  now rewrite step_bare.
Qed.

Lemma blank_trimStart (l s : string) :
  blank l = true -> trimStart (l ++ s) = trimStart s.
Proof.
  unfold blank; induction l as [|a l IH]; simpl; auto.
  intros H; apply andb_true_iff in H; destruct H as [Ha Hl].
  apply negb_true_iff, negb_false_iff in Ha; rewrite Ha; auto.
Qed.

Lemma blank_trimStart_nil (r : string) : blank r = true -> trimStart r = "".
Proof.
  unfold blank; induction r as [|a r IH]; simpl; auto.
  intros H; apply andb_true_iff in H; destruct H as [Ha Hr].
  apply negb_true_iff, negb_false_iff in Ha; rewrite Ha; auto.
Qed.

Lemma blank_trimEnd_nil (r : string) : blank r = true -> trimEnd r = "".
Proof.
  unfold blank; induction r as [|a r IH]; simpl; auto.
  intros H; apply andb_true_iff in H; destruct H as [Ha Hr].
  apply negb_true_iff, negb_false_iff in Ha; rewrite Ha, IH; auto.
Qed.

Lemma blank_trimEnd (s r : string) :
  blank r = true -> trimEnd (s ++ r) = trimEnd s.
Proof.
  intros H; induction s as [|a s IH]; simpl.
  - now apply blank_trimEnd_nil.
  - now rewrite IH.
Qed.

Lemma blank_trim (l s r : string) :
  blank l = true -> blank r = true -> trim (l ++ s ++ r) = trim s.
Proof.
  intros Hl Hr; unfold trim; rewrite blank_trimStart by assumption.
  induction s as [|a s IH]; simpl.
  - now rewrite (blank_trimStart_nil r Hr).
  - destruct (is_whitespace a); [exact IH|].
    change (String a (s ++ r)) with (String a s ++ r)%string.
    now apply blank_trimEnd.
Qed.

Lemma blank_includes (c : ascii) (l : string) :
  is_whitespace c = false -> blank l = true -> includes c l = false.
Proof.
  unfold blank; intros Hc; induction l as [|a l IH]; simpl; auto.
  intros H; apply andb_true_iff in H; destruct H as [Ha Hl].
  rewrite IH by assumption; rewrite orb_false_r.
  apply negb_true_iff, negb_false_iff in Ha.
  apply Ascii.eqb_neq; intros ->; congruence.
Qed.

Lemma spaced_includes (c : ascii) (p : padded) :
  is_whitespace c = false ->
  blank (before p) = true -> blank (after p) = true ->
  includes c (spaced p) = includes c (token p).
Proof.
  intros Hc Hb Ha; unfold spaced.
  rewrite !includes_app, (blank_includes c _ Hc Hb),
    (blank_includes c _ Hc Ha).
  now rewrite orb_false_r.
Qed.

Lemma wf_padded_parts (p : padded) :
  wf_padded p = true ->
  blank (before p) = true /\ blank (after p) = true /\
  includes comma (token p) = false.
Proof.
  unfold wf_padded; intros H.
  apply andb_true_iff in H; destruct H as [H Hc].
  apply andb_true_iff in H; destruct H as [Hb Ha].
  apply negb_true_iff in Hc; auto.
Qed.

Lemma step_spaced (p : padded) (q : option padded) (d : SensorData) :
  wf_padded p = true ->
  match q with Some q' => wf_padded q' = true | None => True end ->
  step (spaced p) (option_map spaced q) d
  = step (token p) (option_map token q) d.
Proof.
  intros Hp Hq; apply wf_padded_parts in Hp; destruct Hp as (Hb & Ha & _).
  assert (T : trim (spaced p) = trim (token p))
    by (unfold spaced; now apply blank_trim).
  assert (N : attached (option_map spaced q) = attached (option_map token q)).
  { destruct q as [q'|]; simpl; [|reflexivity].
    apply wf_padded_parts in Hq; destruct Hq as (Hb' & Ha' & _).
    rewrite spaced_includes by (assumption || reflexivity).
    unfold spaced; now rewrite blank_trim. }
  unfold step, attach, token_key, token_value; now rewrite T, N.
Qed.

Lemma scan_spaced (ps : list padded) (d : SensorData) :
  forallb wf_padded ps = true ->
  scan (map spaced ps) d = scan (map token ps) d.
Proof.
  revert d; induction ps as [|p ps IH]; intros d H; simpl in *; auto.
  apply andb_true_iff in H; destruct H as [Hp Hps].
  rewrite IH by assumption; f_equal.
  replace (hd_error (map spaced ps)) with (option_map spaced (hd_error ps))
    by (destruct ps; reflexivity).
  replace (hd_error (map token ps)) with (option_map token (hd_error ps))
    by (destruct ps; reflexivity).
  apply step_spaced; auto.
  destruct ps as [|q ps]; simpl in *; auto.
  apply andb_true_iff in Hps; tauto.
Qed.

(** Keys and values free of white space: the token keeps its head. *)
Lemma trim_head (a b : string) :
  a <> "" -> free_of is_whitespace a = true ->
  trim (a ++ b) = (a ++ trimEnd b)%string.
Proof.
  intros Hne Ha; unfold trim.
  assert (S : trimStart (a ++ b) = (a ++ b)%string).
  { destruct a as [|c a]; [congruence|]; simpl in *.
    apply andb_true_iff in Ha; destruct Ha as [Hc _].
    apply negb_true_iff in Hc; now rewrite Hc. }
  rewrite S; clear S Hne.
  induction a as [|c a IH]; simpl in *; auto.
  apply andb_true_iff in Ha; destruct Ha as [Hc Ha].
  apply negb_true_iff in Hc; rewrite Hc, IH by assumption; reflexivity.
Qed.

Lemma string_app_assoc (a b c : string) :
  ((a ++ b) ++ c = a ++ (b ++ c))%string.
Proof. induction a as [|x a IH]; simpl; congruence. Qed.

Lemma token_with_tail (k v rest : string) :
  free_of is_whitespace k = true -> includes colon k = false ->
  wf_value v = true ->
  let tok := (k ++ String colon (v ++ String colon rest))%string in
  includes colon (trim tok) = true /\ token_key tok = Some k /\
  token_value tok = v.
Proof.
  intros Hk Hc Hv tok.
  assert (T : trim tok
              = (k ++ String colon (v ++ String colon (trimEnd rest)))%string).
  { unfold tok.
    replace (k ++ String colon (v ++ String colon rest))%string
      with ((k ++ String colon (v ++ String colon "")) ++ rest)%string.
    - rewrite trim_head.
      + rewrite string_app_assoc; simpl.
        now rewrite string_app_assoc.
      + destruct k; discriminate.
      + rewrite free_of_app, Hk; simpl.
        rewrite free_of_app, (wf_value_space v Hv); reflexivity.
    - rewrite string_app_assoc; simpl.
      now rewrite string_app_assoc. }
  unfold token_key, token_value; rewrite T.
  rewrite includes_app, split_app by assumption.
  rewrite split_app by now apply wf_value_colon.
  rewrite Hc; repeat split.
Qed.

End TokenFacts.

Module TokenReplace.

Import Parser Scan Line LineFacts LoopFacts TokenFacts.

Lemma step_next (tok : string) (n1 n2 : option string) (d : SensorData) :
  attached n1 = attached n2 -> step tok n1 d = step tok n2 d.
Proof. intros H; unfold step, attach; now rewrite H. Qed.

(** Two tokens that act alike, and look alike to the key before them, can
    stand for each other anywhere in a line. *)
Lemma scan_replace (t1 t2 : string) (pre post : list string) (d : SensorData) :
  (forall next d', step t1 next d' = step t2 next d') ->
  attached (Some t1) = attached (Some t2) ->
  scan (pre ++ t1 :: post) d = scan (pre ++ t2 :: post) d.
Proof.
  intros Hs Ha; revert d; induction pre as [|b pre IH]; intros d.
  - simpl; now rewrite Hs.
  - cbn [app]; rewrite !scan_cons, IH; f_equal.
    apply step_next; destruct pre; simpl; auto.
Qed.

Lemma parseInt_cases (s : string) :
  parseInt s = NaN \/ exists neg m, parseInt s = Finite neg m 0.
Proof.
  unfold parseInt.
  destruct (scan_sign (trimStart s)) as [neg s1].
  match goal with
  | |- context [match ?x with pair _ _ => _ end] =>
      destruct x as [[radix digit] s2]
  end.
  destruct (scan_digits digit radix 0 0 s2) as [[m cnt] r].
  destruct cnt; [now left|right; now exists neg, m].
Qed.

End TokenReplace.

(** ** Sequences of requests *)

Module TraceFacts.

Import Server Trace.

Lemma saveLog_store ok t type message data w :
  mem (saveLog ok t type message data w) = mem w /\
  files (saveLog ok t type message data w) = files w /\
  sensorColl (saveLog ok t type message data w) = sensorColl w /\
  exists more,
    logColl (saveLog ok t type message data w) = logColl w ++ more /\
    Forall (fun r => log_type r = type /\ log_data r = data) more.
Proof.
  unfold saveLog; destruct ok; simpl; repeat split.
  - exists [mkLogRecord t type message data]; split; auto.
  - exists []; split; [now rewrite app_nil_r|constructor].
Qed.

Lemma history_store limit skip w : same_store w (world (get_history limit skip w)).
Proof.
  unfold get_history, getHistoricalData, world.
  destruct (Mongo.find_sorted _ _ _ _); simpl; repeat split.
Qed.

Lemma logs_store parseDate q w :
  same_store w (world (get_logs parseDate q w)).
Proof.
  unfold get_logs, getLogs, world.
  destruct (bound parseDate _ _); [|simpl; repeat split].
  destruct (bound parseDate _ _); [|simpl; repeat split].
  destruct (Mongo.find_sorted _ _ _ _); simpl; repeat split.
Qed.

Section Runs.

Variable parseDate : string -> option Z.

Lemma run_app es1 es2 w :
  run parseDate (es1 ++ es2) w = run parseDate es2 (run parseDate es1 w).
Proof. revert w; induction es1 as [|e es IH]; intros w; simpl; auto. Qed.

Lemma handle_slot e w :
  touches_slot e = false ->
  requestedServoPosition (mem (snd (handle parseDate e w)))
  = requestedServoPosition (mem w).
Proof.
  destruct e; simpl; try discriminate; intros _.
  - apply Claims.post_data_requested.
  - reflexivity.
  - now destruct (history_store limit skip w) as (-> & _).
  - now destruct (logs_store parseDate q w) as (-> & _).
  - now rewrite Claims.settle_mem.
  - unfold saveSystemLog.
    now destruct (saveLog_store (log_ok o) (at_ o) "system"
                    (Plain message) [] w) as (-> & _).
Qed.

Lemma run_slot es w :
  forallb (fun e => negb (touches_slot e)) es = true ->
  requestedServoPosition (mem (run parseDate es w))
  = requestedServoPosition (mem w).
Proof.
  revert w; induction es as [|e es IH]; intros w H; simpl in *; auto.
  apply andb_true_iff in H; destruct H as [He Hes].
  apply negb_true_iff in He.
  now rewrite IH, handle_slot.
Qed.

Lemma handle_reading e w :
  is_post_data e = false ->
  snapshot (mem (snd (handle parseDate e w))) = snapshot (mem w).
Proof.
  destruct e; simpl; try discriminate; intros _; try reflexivity.
  - unfold servo_check.
    now destruct (negb (is_undefined (requestedServoPosition (mem w)))).
  - now destruct (history_store limit skip w) as (-> & _).
  - now destruct (logs_store parseDate q w) as (-> & _).
  - now rewrite Claims.settle_mem.
  - unfold saveSystemLog.
    now destruct (saveLog_store (log_ok o) (at_ o) "system"
                    (Plain message) [] w) as (-> & _).
Qed.

Lemma subseq_nil_l {A : Type} (m : list A) : subseq [] m.
Proof. induction m; constructor; auto. Qed.

Lemma subseq_app_skip {A : Type} (pre l m : list A) :
  subseq l m -> subseq l (pre ++ m).
Proof. intros H; induction pre; simpl; [assumption|now constructor]. Qed.

Lemma waiting_slot w w' :
  requestedServoPosition (mem w') = requestedServoPosition (mem w) ->
  waiting w' = waiting w.
Proof. unfold waiting; now intros ->. Qed.

Lemma deliveries_subseq es w :
  subseq (deliveries parseDate es w) (waiting w ++ commands es).
Proof.
  unfold deliveries, commands.
  revert w; induction es as [|e es IH]; intros w.
  - apply subseq_nil_l.
  - cbn [answers flat_map].
    specialize (IH (snd (handle parseDate e w))).
    destruct (touches_slot e) eqn:T.
    + destruct e; try discriminate; cbn [delivery command app].
      * (* POST /servo *)
        apply subseq_app_skip.
        unfold waiting in IH; simpl in IH; exact IH.
      * (* GET /servo-check *)
        cbn [handle fst snd] in *.
        unfold servo_check, waiting, world, response in *.
        destruct (is_undefined (requestedServoPosition (mem w))) eqn:U;
          cbn [negb fst snd] in *.
        -- rewrite U in IH; exact IH.
        -- cbn [is_success payload String.eqb Ascii.eqb Bool.eqb andb app
                handover] in *.
           constructor; exact IH.
    + rewrite (waiting_slot w _ (handle_slot e w T)) in IH.
      destruct e; try discriminate; exact IH.
Qed.

Lemma run_reading es w :
  forallb (fun e => negb (is_post_data e)) es = true ->
  snapshot (mem (run parseDate es w)) = snapshot (mem w).
Proof.
  revert w; induction es as [|e es IH]; intros w H; simpl in *; auto.
  apply andb_true_iff in H; destruct H as [He Hes].
  apply negb_true_iff in He.
  now rewrite IH, handle_reading.
Qed.

Lemma sensor_records_app (l c : list LogRecord) :
  sensor_records (l ++ c) = sensor_records l + sensor_records c.
Proof. unfold sensor_records; now rewrite filter_app, length_app. Qed.

(** What one event adds to the sinks: records of the four kinds, and no
    more [sensor] records than documents. *)
Lemma handle_grows e w :
  exists a b c,
    files (snd (handle parseDate e w)) = files w ++ a /\
    sensorColl (snd (handle parseDate e w)) = sensorColl w ++ b /\
    logColl (snd (handle parseDate e w)) = logColl w ++ c /\
    Forall (fun r => In (log_type r) log_kinds) c /\
    sensor_records c <= List.length b.
Proof.
  assert (Stay : forall w',
            files w' = files w /\ sensorColl w' = sensorColl w /\
            logColl w' = logColl w ->
            exists a b c,
              files w' = files w ++ a /\ sensorColl w' = sensorColl w ++ b /\
              logColl w' = logColl w ++ c /\
              Forall (fun r => In (log_type r) log_kinds) c /\
              sensor_records c <= List.length b).
  { intros w' (-> & -> & ->); exists [], [], [].
    rewrite !app_nil_r; repeat split; constructor. }
  destruct e; cbn [handle snd].
  - apply Stay; repeat split.
  - apply Stay; repeat split.
  - apply Stay; repeat split.
  - apply Stay; unfold servo_check.
    destruct (negb (is_undefined (requestedServoPosition (mem w))));
      repeat split.
  - apply Stay; now destruct (history_store limit skip w) as (_ & ? & ? & ?).
  - apply Stay; now destruct (logs_store parseDate q w) as (_ & ? & ? & ?).
  - destruct t as [f stamp entry complaint on_error|doc|stamp position|message];
      unfold settle, saveErrorLog, saveLog.
    + destruct (write_ok o).
      * exists [(f, stamp, entry)], [], []; cbn; rewrite !app_nil_r.
        repeat split; constructor.
      * destruct (errlog_ok o); [|apply Stay; repeat split].
        eexists [], [], [_]; cbn; rewrite !app_nil_r; repeat split.
        -- constructor; [cbn; tauto|constructor].
        -- cbn; lia.
    + destruct (write_ok o); [|apply Stay; repeat split].
      destruct (log_ok o).
      * eexists [], [doc], [_]; cbn; rewrite !app_nil_r; repeat split.
        -- constructor; [cbn; tauto|constructor].
        -- cbn; lia.
      * exists [], [doc], []; cbn; rewrite !app_nil_r.
        repeat split; [constructor|cbn; lia].
    + destruct (log_ok o); [|apply Stay; repeat split].
      eexists [], [], [_]; cbn; rewrite !app_nil_r; repeat split.
      * constructor; [cbn; tauto|constructor].
      * cbn; lia.
    + destruct (errlog_ok o); [|apply Stay; repeat split].
      eexists [], [], [_]; cbn; rewrite !app_nil_r; repeat split.
      * constructor; [cbn; tauto|constructor].
      * cbn; lia.
  - unfold saveSystemLog, saveLog; destruct (log_ok o);
      cbn [files sensorColl logColl add_log console_error].
    + eexists [], [], [_]; rewrite !app_nil_r; repeat split.
      * constructor; [cbn; tauto|constructor].
      * cbn; lia.
    + apply Stay; repeat split.
Qed.

Lemma run_grows es w :
  exists a b c,
    files (run parseDate es w) = files w ++ a /\
    sensorColl (run parseDate es w) = sensorColl w ++ b /\
    logColl (run parseDate es w) = logColl w ++ c.
Proof.
  revert w; induction es as [|e es IH]; intros w; simpl.
  - exists [], [], []; now rewrite !app_nil_r.
  - destruct (handle_grows e w) as (a & b & c & Ha & Hb & Hc & _).
    destruct (IH (snd (handle parseDate e w)))
      as (a' & b' & c' & Ha' & Hb' & Hc').
    exists (a ++ a'), (b ++ b'), (c ++ c').
    rewrite Ha', Hb', Hc', Ha, Hb, Hc, !app_assoc; auto.
Qed.

Lemma run_logs es w :
  Forall (fun r => In (log_type r) log_kinds) (logColl w) ->
  sensor_records (logColl w) <= List.length (sensorColl w) ->
  Forall (fun r => In (log_type r) log_kinds) (logColl (run parseDate es w)) /\
  sensor_records (logColl (run parseDate es w))
  <= List.length (sensorColl (run parseDate es w)).
Proof.
  revert w; induction es as [|e es IH]; intros w H N; simpl; auto.
  destruct (handle_grows e w) as (a & b & c & Ha & Hb & Hc & Hk & Hn).
  apply IH.
  - rewrite Hc; apply Forall_app; auto.
  - rewrite Hc, Hb, sensor_records_app, length_app; lia.
Qed.

End Runs.

End TraceFacts.

(** ** Slices of the sorted collection *)

Module SliceFacts.

Import Mongo MongoFacts.

Lemma sort_desc_snoc {A : Type} (stamp : A -> Z) (l : list A) (x : A) :
  Forall (fun y => (stamp y < stamp x)%Z) l ->
  sort_desc stamp (l ++ [x]) = x :: sort_desc stamp l.
Proof.
  unfold sort_desc; rewrite fold_right_app; simpl.
  intros H; generalize (@nil A).
  induction H as [|y l Hy Hl IH]; intros acc; simpl; auto.
  rewrite IH; simpl.
  replace (stamp y <? stamp x)%Z with true
    by (symmetry; now apply Z.ltb_lt).
  reflexivity.
Qed.

Lemma sorted_app {A : Type} (R : A -> A -> Prop) (a b : list A) :
  StronglySorted R (a ++ b) -> StronglySorted R a /\ StronglySorted R b.
Proof.
  induction a as [|x a IH]; simpl; intros H.
  - split; [constructor|assumption].
  - inversion H as [|? ? Hs Hf]; subst.
    destruct (IH Hs) as [Ha Hb]; split; [|assumption].
    constructor; [assumption|].
    apply Forall_app in Hf; tauto.
Qed.

Lemma sorted_firstn {A : Type} (R : A -> A -> Prop) (n : nat) (l : list A) :
  StronglySorted R l -> StronglySorted R (firstn n l).
Proof.
  intros H; rewrite <- (firstn_skipn n l) in H.
  now apply sorted_app in H.
Qed.

Lemma sorted_skipn {A : Type} (R : A -> A -> Prop) (n : nat) (l : list A) :
  StronglySorted R l -> StronglySorted R (skipn n l).
Proof.
  intros H; rewrite <- (firstn_skipn n l) in H.
  now apply sorted_app in H.
Qed.

Lemma in_firstn_list {A : Type} (n : nat) (l : list A) (x : A) :
  In x (firstn n l) -> In x l.
Proof.
  intros H; rewrite <- (firstn_skipn n l); apply in_or_app; now left.
Qed.

Lemma in_skipn_list {A : Type} (n : nat) (l : list A) (x : A) :
  In x (skipn n l) -> In x l.
Proof.
  intros H; rewrite <- (firstn_skipn n l); apply in_or_app; now right.
Qed.

Lemma take_sorted {A : Type} (R : A -> A -> Prop) (limit : Z) (l : list A) :
  StronglySorted R l -> StronglySorted R (take limit l).
Proof.
  intros H; unfold take; destruct (limit =? 0)%Z; auto.
  now apply sorted_firstn.
Qed.

Lemma in_take {A : Type} (limit : Z) (l : list A) (x : A) :
  In x (take limit l) -> In x l.
Proof.
  unfold take; destruct (limit =? 0)%Z; auto; apply in_firstn_list.
Qed.

Lemma ok_result {S A : Type} (a b : A) (s t : S) :
  Ok a s = Ok b t -> a = b.
Proof. intros H; now inversion H. Qed.

Lemma firstn_twice {A : Type} (n : nat) (l : list A) :
  firstn n l ++ firstn n (skipn n l) = firstn (n + n) l.
Proof.
  rewrite <- (firstn_skipn n l) at 3.
  rewrite firstn_app, firstn_firstn, Nat.min_r by lia.
  f_equal; rewrite length_firstn.
  destruct (Nat.le_gt_cases n (List.length l)) as [L|L].
  - rewrite Nat.min_l by lia; f_equal; lia.
  - rewrite skipn_all2 by lia; now rewrite !firstn_nil.
Qed.

End SliceFacts.

(** ** Printing and reading decimals *)

Module MockFacts.

Import Parser Scan Line LineFacts Mock.

Lemma is_digit_cases (c : ascii) :
  is_digit c = true ->
  In c ["0"; "1"; "2"; "3"; "4"; "5"; "6"; "7"; "8"; "9"]%char.
Proof.
  destruct c as [[|] [|] [|] [|] [|] [|] [|] [|]];
    intros H; try discriminate H; simpl; tauto.
Qed.

Lemma digit_char_digit (d : N) :
  (d < 10)%N -> dec_digit (digit_char d) = Some d.
Proof.
  intros H.
  assert (C : In d [0; 1; 2; 3; 4; 5; 6; 7; 8; 9]%N).
  { destruct d as [|p]; [now left|].
    do 10 (destruct p as [p|p|]; try lia; simpl; try tauto). }
  simpl in C.
  repeat (destruct C as [<-|C]; [reflexivity|]); destruct C.
Qed.

Lemma scan_digit (d : N) (a : N) (c : nat) (s : string) :
  (d < 10)%N ->
  scan_digits dec_digit 10 a c (String (digit_char d) s)
  = scan_digits dec_digit 10 (a * 10 + d) (S c) s.
Proof. intros H; cbn [scan_digits]; now rewrite digit_char_digit. Qed.

Lemma to_digits_scan (fuel : nat) (n : N) (acc : string) :
  (n < 2 ^ N.of_nat (S fuel))%N ->
  exists k, 0 < k /\
    forall a c,
      scan_digits dec_digit 10 a c (to_digits (S fuel) n acc)
      = scan_digits dec_digit 10 (a * 10 ^ N.of_nat k + n) (c + k) acc.
Proof.
  revert n acc; induction fuel as [|fuel IH]; intros n acc Hn.
  - exists 1; split; [lia|]; intros a c.
    assert (n < 10)%N by (change (2 ^ N.of_nat 1)%N with 2%N in Hn; lia).
    cbn [to_digits]; rewrite N.mod_small by assumption.
    replace (if (n <? 10)%N then String (digit_char n) acc
             else String (digit_char n) acc)
      with (String (digit_char n) acc) by now destruct (n <? 10)%N.
    rewrite scan_digit by assumption.
    change (N.of_nat 1) with 1%N; rewrite N.pow_1_r; f_equal; lia.
  - change (to_digits (S (S fuel)) n acc)
      with (if (n <? 10)%N then String (digit_char (n mod 10)) acc
            else to_digits (S fuel) (n / 10)
                   (String (digit_char (n mod 10)) acc)).
    destruct (N.ltb_spec n 10) as [L|L].
    + exists 1; split; [lia|]; intros a c.
      rewrite N.mod_small, scan_digit by assumption.
      change (N.of_nat 1) with 1%N; rewrite N.pow_1_r; f_equal; lia.
    + assert (Q : (n / 10 < 2 ^ N.of_nat (S fuel))%N).
      { apply N.Div0.div_lt_upper_bound.
        rewrite (Nat2N.inj_succ (S fuel)), N.pow_succ_r' in Hn.
        lia. }
      destruct (IH (n / 10)%N (String (digit_char (n mod 10)) acc) Q)
        as (k & Hk & E).
      exists (S k); split; [lia|]; intros a c.
      rewrite E, scan_digit by (apply N.mod_lt; lia).
      rewrite (Nat2N.inj_succ k), N.pow_succ_r'.
      pose proof (N.div_mod n 10 ltac:(lia)).
      f_equal; lia.
Qed.

Lemma to_digits_acc (fuel : nat) (n : N) (acc : string) :
  to_digits fuel n acc = (to_digits fuel n "" ++ acc)%string.
Proof.
  revert n acc; induction fuel as [|fuel IH]; intros n acc; [reflexivity|].
  cbn [to_digits]; destruct (n <? 10)%N; [reflexivity|].
  rewrite IH, (IH _ (String _ "")), TokenFacts.string_app_assoc.
  reflexivity.
Qed.

Lemma to_dec_scan (n : N) (acc : string) :
  exists k, 0 < k /\
    forall a c,
      scan_digits dec_digit 10 a c
        (to_digits (S (N.to_nat (N.log2 n))) n acc)
      = scan_digits dec_digit 10 (a * 10 ^ N.of_nat k + n) (c + k) acc.
Proof.
  apply to_digits_scan.
  destruct n as [|p]; [reflexivity|].
  rewrite Nat2N.inj_succ, N2Nat.id.
  apply N.log2_spec; lia.
Qed.

Lemma to_digits_shape (fuel : nat) (n : N) (acc : string) :
  exists ds, to_digits (S fuel) n acc = (ds ++ acc)%string /\
             ds <> "" /\ all_digits ds = true.
Proof.
  revert n acc; induction fuel as [|fuel IH]; intros n acc.
  - exists (String (digit_char (n mod 10)) ""); cbn [to_digits].
    split; [now destruct (n <? 10)%N|]; split; [discriminate|].
    unfold all_digits, is_digit; simpl.
    rewrite digit_char_digit by (apply N.mod_lt; lia); reflexivity.
  - change (to_digits (S (S fuel)) n acc)
      with (if (n <? 10)%N then String (digit_char (n mod 10)) acc
            else to_digits (S fuel) (n / 10)
                   (String (digit_char (n mod 10)) acc)).
    assert (D : all_digits (String (digit_char (n mod 10)) "") = true).
    { unfold all_digits, is_digit; simpl.
      rewrite digit_char_digit by (apply N.mod_lt; lia); reflexivity. }
    destruct (n <? 10)%N.
    + exists (String (digit_char (n mod 10)) "").
      split; [reflexivity|]; split; [discriminate|exact D].
    + destruct (IH (n / 10)%N (String (digit_char (n mod 10)) acc))
        as (ds & E & Hne & Hd).
      exists (ds ++ String (digit_char (n mod 10)) "")%string.
      rewrite E; split; [|split].
      * now rewrite TokenFacts.string_app_assoc.
      * destruct ds; [congruence|discriminate].
      * unfold all_digits in *; now rewrite free_of_app, Hd, D.
Qed.

Lemma to_dec_digits (n : N) : to_dec n <> "" /\ all_digits (to_dec n) = true.
Proof.
  unfold to_dec.
  destruct (to_digits_shape (N.to_nat (N.log2 n)) n "") as (ds & E & H & D).
  rewrite E.
  replace (ds ++ "")%string with ds
    by (clear; induction ds; simpl; congruence).
  auto.
Qed.

Lemma all_digits_wf (s : string) : all_digits s = true -> wf_value s = true.
Proof.
  apply free_of_weaken; intros c H.
  destruct (is_digit c) eqn:D; [|reflexivity].
  apply is_digit_cases in D; simpl in D.
  repeat (destruct D as [<-|D]; [discriminate H|]); destruct D.
Qed.

(** A string of digits is read as the number it spells. *)
Lemma parseInt_digits (s : string) :
  s <> "" -> all_digits s = true ->
  parseInt s
  = let '(m, cnt, _) := scan_digits dec_digit 10 0 0 s in
    match cnt with O => NaN | S _ => Finite false m 0 end.
Proof.
  intros Hne Hd; destruct s as [|c r]; [congruence|].
  unfold all_digits in Hd; simpl in Hd.
  apply andb_true_iff in Hd; destruct Hd as [Hc Hr].
  apply negb_true_iff, negb_false_iff, is_digit_cases in Hc; simpl in Hc.
  destruct r as [|c2 r2].
  - repeat (destruct Hc as [<-|Hc]; [reflexivity|]); destruct Hc.
  - simpl in Hr; apply andb_true_iff in Hr; destruct Hr as [Hc2 _].
    apply negb_true_iff, negb_false_iff, is_digit_cases in Hc2; simpl in Hc2.
    repeat (destruct Hc as [<-|Hc];
            [repeat (destruct Hc2 as [<-|Hc2]; [reflexivity|]);
             destruct Hc2|]);
    destruct Hc.
Qed.

Lemma parseInt_to_dec (n : N) : parseInt (to_dec n) = Finite false n 0.
Proof.
  destruct (to_dec_digits n) as [Hne Hd].
  rewrite parseInt_digits by assumption.
  unfold to_dec; destruct (to_dec_scan n "") as (k & Hk & E).
  rewrite E; cbn [scan_digits].
  destruct k; [lia|]; rewrite N.mul_0_l; reflexivity.
Qed.

Lemma to_dec_small (r : N) :
  (r < 10)%N -> to_dec r = String (digit_char r) "".
Proof.
  intros H; unfold to_dec; cbn [to_digits].
  rewrite N.mod_small by assumption.
  now replace (r <? 10)%N with true by (symmetry; now apply N.ltb_lt).
Qed.

(** The fixed-point print is read back as the number of tenths. *)
Lemma parseFloat_toFixed1 (t : N) :
  parseFloat (toFixed1 t) = Finite false t (-1).
Proof.
  unfold toFixed1.
  rewrite (to_dec_small (t mod 10)) by (apply N.mod_lt; lia).
  destruct (to_dec_digits (t / 10)) as [Hne Hd].
  destruct (to_dec_scan (t / 10) ("." ++ String (digit_char (t mod 10)) ""))
    as (k & Hk & E).
  assert (P : forall s rest,
            s <> "" -> all_digits s = true ->
            parseFloat (s ++ rest)
            = let '(mi, ci, s2) :=
                scan_digits dec_digit 10 0 0 (s ++ rest) in
              let '(m, cf, s3) :=
                match s2 with
                | String "." r => scan_digits dec_digit 10 mi 0 r
                | _ => (mi, 0, s2)
                end in
              match ci + cf with
              | O => NaN
              | S _ => Finite false m (scan_exponent s3 - Z.of_nat cf)
              end).
  { intros s rest Hs Ha; destruct s as [|c r]; [congruence|].
    unfold all_digits in Ha; simpl in Ha.
    apply andb_true_iff in Ha; destruct Ha as [Hc _].
    apply negb_true_iff, negb_false_iff, is_digit_cases in Hc; simpl in Hc.
    repeat (destruct Hc as [<-|Hc]; [reflexivity|]); destruct Hc. }
  rewrite (P _ _ Hne Hd).
  assert (Dot : forall a c s,
            scan_digits dec_digit 10 a c (String "." s) = (a, c, String "." s))
    by reflexivity.
  assert (Nil : forall a c, scan_digits dec_digit 10 a c "" = (a, c, ""))
    by reflexivity.
  unfold to_dec; rewrite <- to_digits_acc, E.
  change ("." ++ String (digit_char (t mod 10)) "")%string
    with (String "." (String (digit_char (t mod 10)) "")).
  rewrite Dot; cbv beta iota zeta.
  rewrite scan_digit by (apply N.mod_lt; lia).
  rewrite Nil; cbv beta iota zeta.
  destruct k; [lia|]; cbn [Nat.add scan_exponent].
  f_equal.
  pose proof (N.div_mod t 10 ltac:(lia)); lia.
Qed.

(** A string of digits is read by [parseFloat] as the same number. *)
Lemma parseFloat_to_dec (n : N) : parseFloat (to_dec n) = Finite false n 0.
Proof.
  destruct (to_dec_digits n) as [Hne Hd].
  destruct (to_dec_scan n "") as (k & Hk & E).
  destruct (to_dec n) as [|c rest] eqn:S; [congruence|].
  unfold all_digits in Hd; simpl in Hd.
  apply andb_true_iff in Hd; destruct Hd as [Hc _].
  apply negb_true_iff, negb_false_iff, is_digit_cases in Hc; simpl in Hc.
  assert (P : parseFloat (String c rest)
              = let '(mi, ci, s2) :=
                  scan_digits dec_digit 10 0 0 (String c rest) in
                let '(m0, cf, s3) :=
                  match s2 with
                  | String "." r0 => scan_digits dec_digit 10 mi 0 r0
                  | _ => (mi, 0, s2)
                  end in
                match ci + cf with
                | O => NaN
                | S _ => Finite false m0 (scan_exponent s3 - Z.of_nat cf)
                end)
    by (repeat (destruct Hc as [<-|Hc]; [reflexivity|]); destruct Hc).
  rewrite P, <- S; unfold to_dec; rewrite E.
  cbn [scan_digits]; cbv beta iota zeta.
  destruct k; [lia|]; cbn [Nat.add scan_exponent].
  rewrite N.mul_0_l; reflexivity.
Qed.

End MockFacts.

Module Extras.

Import Parser Scan Line Server Value Padding.
Import LoopFacts ScanFacts FieldFacts LineFacts LineSplit TokenFacts.
Import TokenReplace ValueFacts.

(** X1: when a key occurs more than once in a line, the last occurrence
    decides: each numeric field holds a number exactly when some token is
    a pair of its key, no later token is, and the number is what the key's
    reader returns on that token's value. *)
Theorem numeric_last_wins (rawData : string) (d : SensorData) :
  Forall (fun f : string * (string -> number) * (SensorData -> option number) =>
            forall v,
              snd f (final_state (parse_block (VStr rawData) d)) = Some v
              <-> last_read (fst (fst f)) (snd (fst f))
                    (split comma rawData) v)
    numeric_fields.
Proof.
  apply Forall_forall; intros [[k read] get] H v; cbn [fst snd].
  rewrite parse_block_scan; cbn [final_state].
  rewrite (Claims.scanned_value k read get _ d H).
  apply value_of_spec.
Qed.

(** X2: a line without any colon resets the reading: the block completes
    and every sensor field is absent, the other fields untouched. *)
Theorem bare_line_resets (rawData : string) (d : SensorData) :
  includes colon rawData = false ->
  parse_block (VStr rawData) d = Ok tt (reset_sensors d).
Proof.
  intros H; rewrite parse_block_scan; f_equal.
  now apply scan_bare, split_keeps_free.
Qed.

Lemma bare_line_resets_witness :
  includes colon "DRY, BRIGHT,,42" = false /\
  parse_block (VStr "DRY, BRIGHT,,42")
    (Scan.parse "Moisture:5,WET,Temp:20")
  = Ok tt (initial 0).
Proof.
  split; [reflexivity|].
  now rewrite (bare_line_resets "DRY, BRIGHT,,42" _ eq_refl).
Defined.

(** X3: white space around the tokens of a line does not change what the
    line parses to: spaces, tabs or line ends before and after any token,
    status words included, are trimmed away. *)
Theorem padding_is_ignored (ps : list padded) (d : SensorData) :
  ps <> [] -> forallb wf_padded ps = true ->
  parse_block (VStr (join comma (map spaced ps))) d
  = parse_block (VStr (join comma (map token ps))) d.
Proof.
  intros Hne Hwf; rewrite !parse_block_scan.
  rewrite !split_join.
  - now rewrite scan_spaced.
  - destruct ps; [congruence|discriminate].
  - apply Forall_map, Forall_forall; intros p Hp.
    rewrite forallb_forall in Hwf.
    now destruct (wf_padded_parts p (Hwf p Hp)) as (_ & _ & ?).
  - destruct ps; [congruence|discriminate].
  - apply Forall_map, Forall_forall; intros p Hp.
    rewrite forallb_forall in Hwf.
    destruct (wf_padded_parts p (Hwf p Hp)) as (Hb & Ha & Hc).
    rewrite spaced_includes; auto.
Qed.

Lemma padding_is_ignored_witness :
  parse_block (VStr "  Moisture:512 ,	MOIST , Temp:24.5") (initial 0)
  = parse_block (VStr "Moisture:512,MOIST,Temp:24.5") (initial 0).
Proof.
  apply (padding_is_ignored
           [mkPadded "  " "Moisture:512" " ";
            mkPadded "	" "MOIST" " ";
            mkPadded " " "Temp:24.5" ""]);
    [discriminate|reflexivity].
Defined.

(** X4: only the text between the first and the second colon of a token
    is its value: [Key:v:anything] stands for [Key:v] wherever it occurs in
    a line, for a key and a value without colon or white space. *)
Theorem extra_colons_dropped (k v rest : string) (pre post : list string)
    (d : SensorData) :
  free_of is_whitespace k = true -> includes colon k = false ->
  includes comma k = false ->
  wf_value v = true -> includes comma rest = false ->
  Forall (fun t => includes comma t = false) (pre ++ post) ->
  parse_block
    (VStr (join comma
             (pre ++ (k ++ String colon (v ++ String colon rest))%string
                  :: post))) d
  = parse_block
      (VStr (join comma (pre ++ (k ++ String colon v)%string :: post))) d.
Proof.
  intros Hk Hc Hm Hv Hr Hall.
  apply Forall_app in Hall; destruct Hall as [Hpre Hpost].
  pose proof (wf_value_comma v Hv) as Hvm.
  rewrite !parse_block_scan, !split_join.
  - f_equal; apply scan_replace.
    + intros next d'; unfold step.
      destruct (token_with_tail k v rest Hk Hc Hv) as (-> & -> & ->).
      destruct (key_token_shape k v Hk Hc Hv) as (-> & -> & ->).
      reflexivity.
    + unfold attached; rewrite !includes_app; simpl.
      now rewrite !orb_true_r.
  - destruct pre; discriminate.
  - apply Forall_app; split; [assumption|constructor; [|assumption]].
    rewrite includes_app, Hm; simpl; exact Hvm.
  - destruct pre; discriminate.
  - apply Forall_app; split; [assumption|constructor; [|assumption]].
    rewrite includes_app, Hm; simpl.
    rewrite includes_app, Hvm; simpl; exact Hr.
Qed.

Lemma extra_colons_dropped_witness :
  parse_block (VStr "Light:7,Temp:24.5:C:x,DRY") (initial 0)
  = parse_block (VStr "Light:7,Temp:24.5,DRY") (initial 0).
Proof.
  apply (extra_colons_dropped "Temp" "24.5" "C:x" ["Light:7"] ["DRY"]);
    try reflexivity.
  repeat constructor.
Defined.



Import Trace TraceFacts SliceFacts MongoFacts.

(** X6: nothing but an ingest changes the reading: over any sequence of
    other requests and of completions of writes, failed or not, the eleven
    fields that [GET /data] reports of the reading stay as they were. *)
Theorem reading_changes_only_on_ingest
    (parseDate : string -> option Z) (es : list event) (w : World) :
  forallb (fun e => negb (is_post_data e)) es = true ->
  snapshot (mem (run parseDate es w)) = snapshot (mem w).
Proof. apply run_reading. Qed.

Lemma reading_changes_only_on_ingest_witness :
  snapshot
    (mem (run (fun _ => None)
            [PostServo 6 (VNum (of_Z 90)); GetData;
             Complete (SaveServoLog 6 (VNum (of_Z 90)))
               (mkOutcome 7 false false false);
             GetHistory (Some "-1") (Some "-1"); ServoCheck; ServoCheck]
            five_readings))
  = snapshot (mem five_readings).
Proof.
  apply (reading_changes_only_on_ingest (fun _ => None)); reflexivity.
Defined.

(** X7: the slot holds the latest command.  After a [POST /servo] with a
    position, whatever was pending before and whatever ingests, queries
    and completions come in between, the next [GET /servo-check] hands
    over that position and empties the slot. *)
Theorem latest_command_delivered
    (parseDate : string -> option Z) (es1 es2 : list event)
    (now : Z) (p : value) (w : World) :
  is_undefined p = false ->
  forallb (fun e => negb (touches_slot e)) es2 = true ->
  let w' := run parseDate (es1 ++ PostServo now p :: es2) w in
  handle parseDate ServoCheck w'
  = (Json (mkResponse 200 (handover p)),
     set_mem (set_requestedServoPosition VUndefined (mem w')) w').
Proof.
  intros Hp Hes w'.
  assert (R : requestedServoPosition (mem w') = p).
  { subst w'; rewrite run_app; cbn [run handle snd].
    now rewrite run_slot. }
  cbn [handle]; unfold servo_check, response, world.
  rewrite R, Hp; reflexivity.
Qed.

Lemma latest_command_delivered_witness :
  fst (handle (fun _ => None) ServoCheck
         (run (fun _ => None)
            [PostServo 1 (VNum (of_Z 10)); PostServo 2 (VNum (of_Z 0));
             PostData 3 (VStr "Servo:10"); GetData;
             Complete (SaveServoLog 2 (VNum (of_Z 0)))
               (mkOutcome 4 false false false)]
            (fresh 0)))
  = Json (mkResponse 200
            [("status", JStr "success"); ("position", JNum (of_Z 0))]).
Proof.
  exact (f_equal fst
           (latest_command_delivered (fun _ => None)
              [PostServo 1 (VNum (of_Z 10))]
              [PostData 3 (VStr "Servo:10"); GetData;
               Complete (SaveServoLog 2 (VNum (of_Z 0)))
                 (mkOutcome 4 false false false)]
              2 (VNum (of_Z 0)) (fresh 0) eq_refl eq_refl)).
Defined.

(** X8: no command reaches the device twice, out of order, or without
    having been asked for: over any sequence of events, what the
    successful [GET /servo-check] answers hand over is, in order, a
    selection of what was waiting at the start followed by what the
    [POST /servo] requests carried. *)
Theorem no_double_delivery
    (parseDate : string -> option Z) (es : list event) (w : World) :
  subseq (deliveries parseDate es w) (waiting w ++ commands es).
Proof. apply deliveries_subseq. Qed.

(** X9: a [POST /servo] whose body has no position is answered with
    success and no position, and empties the slot: a command that was
    pending is dropped and the next [GET /servo-check] reports none. *)
Theorem missing_position_clears (now : Z) (w : World) :
  let x := post_servo now VUndefined w in
  status (response x) = 200 /\
  payload (response x)
  = [("status", JStr "success");
     ("message", JStr "Servo position request received")] /\
  requestedServoPosition (mem (world x)) = VUndefined /\
  response (servo_check (world x))
  = mkResponse 200 [("status", JStr "no_request")] /\
  world (servo_check (world x)) = world x.
Proof. repeat split. Qed.

(** X10: the durable sinks only grow: over any sequence of events, the
    log files, the sensor collection and the log collection keep every
    entry they had, in place, and gain entries at the end only. *)
Theorem sinks_append_only
    (parseDate : string -> option Z) (es : list event) (w : World) :
  exists a b c,
    files (run parseDate es w) = files w ++ a /\
    sensorColl (run parseDate es w) = sensorColl w ++ b /\
    logColl (run parseDate es w) = logColl w ++ c.
Proof. apply run_grows. Qed.

(** X11: the log collection stays well formed: if every record is of one
    of the four kinds and the records of kind [sensor] are no more than
    the stored documents, the same holds after any sequence of events,
    since the [sensor] record is written only after a document was
    saved. *)
Theorem log_records_well_formed
    (parseDate : string -> option Z) (es : list event) (w : World) :
  Forall (fun r => In (log_type r) log_kinds) (logColl w) ->
  sensor_records (logColl w) <= List.length (sensorColl w) ->
  Forall (fun r => In (log_type r) log_kinds) (logColl (run parseDate es w)) /\
  sensor_records (logColl (run parseDate es w))
  <= List.length (sensorColl (run parseDate es w)).
Proof. apply run_logs. Qed.

Lemma log_records_well_formed_witness :
  sensor_records
    (logColl (run (fun _ => None)
                [PostData 6 (VStr "Temp:26");
                 Complete (SaveSensorData
                             (snapshot (set_raw (VStr "Temp:26") (initial 6))))
                   (mkOutcome 6 true true true);
                 Complete (SaveErrorLog "Error writing to file log")
                   (mkOutcome 6 true true true)]
                (fresh 0))) = 1 /\
  sensor_records
    (logColl (run (fun _ => None)
                [PostData 6 (VStr "Temp:26");
                 Complete (SaveSensorData
                             (snapshot (set_raw (VStr "Temp:26") (initial 6))))
                   (mkOutcome 6 true true true);
                 Complete (SaveErrorLog "Error writing to file log")
                   (mkOutcome 6 true true true)]
                (fresh 0)))
  <= List.length
       (sensorColl (run (fun _ => None)
                      [PostData 6 (VStr "Temp:26");
                       Complete (SaveSensorData
                                   (snapshot (set_raw (VStr "Temp:26")
                                                (initial 6))))
                         (mkOutcome 6 true true true);
                       Complete (SaveErrorLog "Error writing to file log")
                         (mkOutcome 6 true true true)]
                      (fresh 0))).
Proof.
  split; [reflexivity|].
  apply (log_records_well_formed (fun _ => None)); [constructor|].
  cbn; lia.
Defined.

(** X12: a reading whose save succeeds is the head of the history: after
    an ingest stamped later than every stored document, and whatever
    becomes of the file append, [GET /data/history?limit=1] answers with
    exactly the reading that [GET /data] shows. *)
Theorem ingest_heads_history
    (now : Z) (rawData : string) (w : World) (o1 o2 : outcome) :
  write_ok o2 = true ->
  Forall (fun d => (doc_timestamp d < now)%Z) (sensorColl w) ->
  let x := post_data now (VStr rawData) w in
  let w' := settle_all (combine (started x) [o1; o2]) (world x) in
  get_history (Some "1") None w'
  = (mkResponse 200 (Rows [snapshot (mem w')]), w', []) /\
  doc_timestamp (snapshot (mem w')) = now /\
  doc_raw (snapshot (mem w')) = VStr rawData.
Proof.
  intros Hok Hold x w'.
  assert (M : mem w' = mem (world x)) by apply Claims.settle_all_mem.
  assert (T : timestamp (mem (world x)) = now)
    by (subst x; now rewrite Claims.post_data_mem).
  assert (R : raw (mem (world x)) = VStr rawData)
    by (subst x; now rewrite Claims.post_data_mem).
  assert (C : sensorColl w' = sensorColl w ++ [snapshot (mem (world x))]).
  { subst w' x; unfold post_data, started, world; cbn [fst snd].
    rewrite parse_block_scan; cbn [final_state raised app combine].
    unfold settle_all, settle, saveErrorLog, saveLog; rewrite Hok.
    destruct (write_ok o1), (errlog_ok o1), (log_ok o2); reflexivity. }
  rewrite M; split; [|split; [exact T|exact R]].
  unfold get_history, getHistoricalData.
  change (query_int (Some "1") 100) with 1%Z.
  change (query_int None 0) with 0%Z.
  rewrite find_sorted_rows, C by lia.
  rewrite sort_desc_snoc by (cbn [snapshot doc_timestamp]; now rewrite T).
  reflexivity.
Qed.

Lemma ingest_heads_history_witness :
  fst (fst (get_history (Some "1") None (ingest_ok 9 "Temp:29" five_readings)))
  = mkResponse 200
      (Rows [snapshot (mem (ingest_ok 9 "Temp:29" five_readings))]).
Proof.
  unfold ingest_ok.
  destruct (ingest_heads_history 9 "Temp:29" five_readings
              (mkOutcome 9 true true true) (mkOutcome 9 true true true)
              eq_refl) as (-> & _).
  - vm_compute; repeat constructor.
  - reflexivity.
Defined.

(** X13: a reading whose save fails is current but not historical: the
    sensor collection, and with it every answer of [/data/history], is as
    before the ingest, while [GET /data] shows the new line. *)
Theorem failed_save_not_in_history
    (now : Z) (rawData : string) (w : World) (o1 o2 : outcome) :
  write_ok o2 = false ->
  let x := post_data now (VStr rawData) w in
  let w' := settle_all (combine (started x) [o1; o2]) (world x) in
  sensorColl w' = sensorColl w /\
  (forall limit skip,
     payload (response (get_history limit skip w'))
     = payload (response (get_history limit skip w))) /\
  In ("raw", JStr rawData) (payload (response (get_data w'))) /\
  In "Error saving to MongoDB:" (console w').
Proof.
  intros Hko x w'.
  assert (C : sensorColl w' = sensorColl w /\
              In "Error saving to MongoDB:" (console w')).
  { subst w' x; unfold post_data, started, world; cbn [fst snd].
    rewrite parse_block_scan; cbn [final_state raised app combine].
    unfold settle_all, settle, saveErrorLog, saveLog; rewrite Hko.
    destruct (write_ok o1), (errlog_ok o1); cbn; split; auto;
      rewrite ?in_app_iff; simpl; auto. }
  destruct C as [C K]; split; [exact C|]; split; [|split; [|exact K]].
  - intros limit skip; unfold get_history, getHistoricalData, response.
    rewrite C; destruct (Mongo.find_sorted _ _ _ _); reflexivity.
  - unfold get_data, response, stringify; cbn [fst payload].
    assert (M : mem w' = mem (world x)) by apply Claims.settle_all_mem.
    rewrite M; subst x; rewrite Claims.post_data_mem.
    cbn [raw set_timestamp set_raw prop json_of_value].
    apply in_or_app; right; apply in_or_app; left; now left.
Qed.

Lemma failed_save_not_in_history_witness :
  sensorColl
    (settle_all
       (combine (started (post_data 9 (VStr "Temp:29") five_readings))
          [mkOutcome 9 true true true; mkOutcome 9 false false false])
       (world (post_data 9 (VStr "Temp:29") five_readings)))
  = sensorColl five_readings.
Proof.
  destruct (failed_save_not_in_history 9 "Temp:29" five_readings
              (mkOutcome 9 true true true) (mkOutcome 9 false false false)
              eq_refl) as (H & _).
  exact H.
Defined.

(** X14: what [getLogs] returns is what was asked for: every row is a
    stored record of the requested kind, stamped within the requested
    bounds, both inclusive; the rows come newest first; and the query
    leaves the world as it found it. *)
Theorem logs_are_filtered
    (parseDate : string -> option Z) (options : LogOptions)
    (w w' : World) (rows : list LogRecord) :
  getLogs parseDate options w = Ok rows w' ->
  w' = w /\
  StronglySorted (Mongo.newer log_timestamp) rows /\
  Forall (fun r =>
            In r (logColl w) /\
            type_filter (opt_type options) r = true /\
            (forall t, given (opt_startDate options) = true ->
               parseDate (to_string (opt_startDate options)) = Some t ->
               (t <= log_timestamp r)%Z) /\
            (forall t, given (opt_endDate options) = true ->
               parseDate (to_string (opt_endDate options)) = Some t ->
               (log_timestamp r <= t)%Z))
    rows.
Proof.
  unfold getLogs.
  destruct (bound parseDate (opt_startDate options) Z.leb) as [from|] eqn:Ef;
    [|discriminate].
  destruct (bound parseDate (opt_endDate options) (fun t x => (x <=? t)%Z))
    as [to|] eqn:Et; [|discriminate].
  destruct (Mongo.find_sorted _ _ _ _) as [found|] eqn:Eq; [|discriminate].
  intros H; inversion H; subst found w'; clear H.
  unfold Mongo.find_sorted in Eq.
  destruct (_ <? 0)%Z; [discriminate|]; inversion Eq; clear Eq.
  split; [reflexivity|]; split.
  - apply take_sorted, sorted_skipn, sort_desc_sorted.
  - apply Forall_forall; intros r Hr.
    apply in_take, in_skipn_list in Hr.
    apply (Permutation_in _ (sort_desc_perm log_timestamp _)) in Hr.
    apply filter_In in Hr; destruct Hr as [Hin Hf].
    apply andb_true_iff in Hf; destruct Hf as [Hf Hto].
    apply andb_true_iff in Hf; destruct Hf as [Hty Hfrom].
    split; [exact Hin|]; split; [exact Hty|]; split.
    + intros t G P; unfold bound in Ef; rewrite G, P in Ef.
      inversion Ef; subst from; now apply Z.leb_le.
    + intros t G P; unfold bound in Et; rewrite G, P in Et.
      inversion Et; subst to; now apply Z.leb_le.
Qed.

Lemma logs_are_filtered_witness :
  exists rows,
    getLogs (fun s => if String.eqb s "1970-01-01T00:00:00.003Z"
                      then Some 3%Z else None)
      (mkLogOptions (Some "sensor") (Some 2%Z) None
         (Some "1970-01-01T00:00:00.003Z") None)
      five_readings
    = Ok rows five_readings /\
    List.length rows = 2 /\
    Forall (fun r => (3 <= log_timestamp r)%Z) rows.
Proof.
  eexists; split; [vm_compute; reflexivity|]; split; [reflexivity|].
  destruct (logs_are_filtered
              (fun s => if String.eqb s "1970-01-01T00:00:00.003Z"
                        then Some 3%Z else None)
              (mkLogOptions (Some "sensor") (Some 2%Z) None
                 (Some "1970-01-01T00:00:00.003Z") None)
              five_readings five_readings _ eq_refl) as (_ & _ & F).
  eapply Forall_impl; [|exact F].
  intros r (_ & _ & Hs & _); exact (Hs 3%Z eq_refl eq_refl).
Defined.

(** X15: when no two stored documents share a timestamp, the newest-first
    order of the collection is unique, so every query sees the documents
    in the same order, and the pages of the history fit together: for a
    positive [limit], the page at [skip] followed by the page at
    [skip + limit] is the page of twice the size at [skip], so paging
    loses and repeats nothing; and a [skip] past the end gives the empty
    page. *)
Theorem history_pages_concatenate (w : World) (limit skip : Z) :
  (0 < limit)%Z -> (0 <= skip)%Z ->
  NoDup (map doc_timestamp (sensorColl w)) ->
  (forall order,
     Permutation order (sensorColl w) ->
     StronglySorted (Mongo.newer doc_timestamp) order ->
     order = Mongo.sort_desc doc_timestamp (sensorColl w)) /\
  exists p1 p2,
    getHistoricalData (Some limit) (Some skip) w = Ok p1 w /\
    getHistoricalData (Some limit) (Some (skip + limit)%Z) w = Ok p2 w /\
    getHistoricalData (Some (2 * limit)%Z) (Some skip) w = Ok (p1 ++ p2) w /\
    ((Z.of_nat (List.length (sensorColl w)) <= skip)%Z -> p1 = []).
Proof.
  intros Hl Hs N; split.
  { intros order P S; symmetry.
    apply (sorted_unique doc_timestamp).
    - eapply Permutation_NoDup; [|exact N].
      apply Permutation_map, Permutation_sym, sort_desc_perm.
    - rewrite P; apply sort_desc_perm.
    - apply sort_desc_sorted.
    - exact S. }
  unfold getHistoricalData.
  rewrite !find_sorted_rows by lia.
  do 2 eexists; split; [reflexivity|]; split; [reflexivity|]; split.
  - f_equal.
    replace (Z.to_nat (skip + limit)) with (Z.to_nat limit + Z.to_nat skip)
      by lia.
    rewrite <- skipn_skipn, firstn_twice; f_equal; lia.
  - intros Hend; rewrite skipn_all2; [apply firstn_nil|].
    rewrite (Permutation_length (sort_desc_perm doc_timestamp _)); lia.
Qed.

Lemma history_pages_concatenate_witness :
  exists p1 p2,
    getHistoricalData (Some 2%Z) (Some 1%Z) five_readings
    = Ok p1 five_readings /\
    getHistoricalData (Some 2%Z) (Some 3%Z) five_readings
    = Ok p2 five_readings /\
    map doc_timestamp (p1 ++ p2) = [4%Z; 3%Z; 2%Z; 1%Z].
Proof.
  assert (N : NoDup (map doc_timestamp (sensorColl five_readings))).
  { vm_compute.
    repeat (constructor; [simpl; intuition discriminate|]); constructor. }
  destruct (history_pages_concatenate five_readings 2 1
              ltac:(lia) ltac:(lia) N) as (_ & p1 & p2 & H1 & H2 & H12 & _).
  exists p1, p2; split; [exact H1|]; split; [exact H2|].
  assert (C : exists rows,
             getHistoricalData (Some (2 * 2)%Z) (Some 1%Z) five_readings
             = Ok rows five_readings /\
             map doc_timestamp rows = [4%Z; 3%Z; 2%Z; 1%Z])
    by (eexists; split; vm_compute; reflexivity).
  destruct C as (rows & C & M).
  rewrite <- (ok_result _ _ _ _ (eq_trans (eq_sym C) H12)); exact M.
Defined.

Import Mock MockFacts.

Lemma mock_raw_line (now : Z) (m l wt t h : N) :
  m_raw (GET now m l wt t h)
  = line (canonical (to_dec m) (moisture_status m) (to_dec l) (light_status l)
            (to_dec wt) (water_status wt) (toFixed1 t) (to_dec h)
            (to_dec 45)).
Proof.
  unfold GET, line, canonical; cbn [m_raw flat_map tokens app join].
  rewrite !TokenFacts.string_app_assoc; reflexivity.
Qed.

Lemma mock_line_wf (m l wt t h : N) :
  forallb wf_group
    (canonical (to_dec m) (moisture_status m) (to_dec l) (light_status l)
       (to_dec wt) (water_status wt) (toFixed1 t) (to_dec h) (to_dec 45))
  = true.
Proof.
  assert (D : forall n, wf_value (to_dec n) = true)
    by (intros n; apply all_digits_wf, to_dec_digits).
  assert (F : wf_value (toFixed1 t) = true).
  { unfold toFixed1, wf_value; rewrite free_of_app; fold (wf_value (to_dec (t / 10))).
    rewrite D; simpl; fold (wf_value (to_dec (t mod 10))); apply D. }
  unfold canonical, moisture_status, light_status, water_status.
  cbn [forallb wf_group]; rewrite !D, F.
  destruct (m <? 300)%N, (m <? 700)%N, (l <? 300)%N, (l <? 700)%N,
    (wt <? 30)%N, (wt <? 70)%N; reflexivity.
Qed.

(** X16: the raw line that the mock sensor route writes into its answer
    is read back by the server's parser as the very values of that
    answer: each integer as itself, each status as the word sent, the
    temperature as the number its one-decimal print spells, the servo
    as 45. *)
Theorem mock_line_round_trip (now : Z) (m l wt t h : N) (d : SensorData) :
  let r := GET now m l wt t h in
  parse_block (VStr (m_raw r)) d
  = Ok tt
      (mkSensorData (timestamp d)
         (Some (Finite false (m_moisture r) 0)) (Some (m_moistureStatus r))
         (Some (Finite false (m_light r) 0)) (Some (m_lightStatus r))
         (Some (Finite false (m_water r) 0)) (Some (m_waterStatus r))
         (Some (Finite false t (-1)))
         (Some (Finite false (m_humidity r) 0))
         (Some (Finite false (m_servo r) 0))
         (raw d) (requestedServoPosition d)) /\
  parseFloat (m_temperature r) = Finite false t (-1).
Proof.
  intros r; split; [|apply parseFloat_toFixed1].
  subst r; rewrite mock_raw_line, parse_block_scan.
  rewrite split_line, scan_groups by (discriminate || apply mock_line_wf).
  unfold canonical; cbn [fold_left Line.apply].
  rewrite !parseInt_to_dec.
  unfold GET; cbn [m_moisture m_moistureStatus m_light m_lightStatus m_water
                   m_waterStatus m_humidity m_servo].
  rewrite parseFloat_toFixed1.
  rewrite parseFloat_to_dec.
  unfold moisture_status, light_status, water_status.
  destruct (m <? 300)%N, (m <? 700)%N, (l <? 300)%N, (l <? 700)%N,
    (wt <? 30)%N, (wt <? 70)%N; reflexivity.
Qed.

(** X17: on the dashboard the badge of a mock reading is red below the
    lower threshold of its sensor, yellow between the two thresholds and
    green from the upper one on, never the gray of a missing status;
    gray is what an absent or empty status gets. *)
Theorem mock_status_colours (now : Z) (m l wt t h : N) :
  let r := GET now m l wt t h in
  Page.getStatusColor (Some (m_moistureStatus r))
  = (if (m <? 300)%N then Page.red
     else if (m <? 700)%N then Page.yellow else Page.green) /\
  Page.getStatusColor (Some (m_lightStatus r))
  = (if (l <? 300)%N then Page.red
     else if (l <? 700)%N then Page.yellow else Page.green) /\
  Page.getStatusColor (Some (m_waterStatus r))
  = (if (wt <? 30)%N then Page.red
     else if (wt <? 70)%N then Page.yellow else Page.green) /\
  Page.getStatusColor None = Page.gray /\
  Page.getStatusColor (Some "") = Page.gray.
Proof.
  unfold GET, moisture_status, light_status, water_status; simpl.
  destruct (m <? 300)%N, (m <? 700)%N, (l <? 300)%N, (l <? 700)%N,
    (wt <? 30)%N, (wt <? 70)%N; repeat split.
Qed.

(** X18: a servo command is on record: once the log save that a
    [POST /servo] started has succeeded, the request being later than
    every stored record, [GET /logs?type=servo&limit=1] answers with
    exactly one record: of kind [servo], stamped with the instant of the
    request and carrying the position that was posted, whatever became of
    the servo log file. *)
Theorem servo_command_is_logged
    (parseDate : string -> option Z) (now : Z) (p : value) (w : World)
    (o1 o2 : outcome) :
  log_ok o2 = true ->
  Forall (fun r => (log_timestamp r < now)%Z) (logColl w) ->
  let x := post_servo now p w in
  let w' := settle_all (combine (started x) [o1; o2]) (world x) in
  exists r,
    get_logs parseDate (mkLogsQuery (Some "servo") (Some "1") None None None)
      w'
    = (mkResponse 200 (Rows [r]), w', []) /\
    log_type r = "servo" /\ log_timestamp r = now /\
    log_data r = [("position", p)].
Proof.
  intros Hok Hold x w'.
  set (rec := mkLogRecord now "servo"
                (Template "Servo position set to " p) [("position", p)]).
  exists rec; split; [|repeat split].
  assert (C : exists more,
             logColl w' = logColl w ++ more ++ [rec] /\
             Forall (fun r => log_type r = "error") more).
  { subst w' x; unfold post_servo, started, world; cbn [fst snd combine].
    unfold settle_all, settle, saveErrorLog, saveLog; rewrite Hok.
    destruct (write_ok o1); [exists []; split; [reflexivity|constructor]|].
    destruct (errlog_ok o1).
    - eexists [_]; split; [cbn; now rewrite <- app_assoc|].
      repeat constructor.
    - exists []; split; [reflexivity|constructor]. }
  destruct C as (more & C & Hmore).
  unfold get_logs, getLogs, bound, log_options.
  cbn [q_type q_limit q_skip q_startDate q_endDate given opt_type opt_limit
       opt_skip opt_startDate opt_endDate].
  change (query_int (Some "1") 100) with 1%Z.
  change (query_int None 0) with 0%Z.
  rewrite find_sorted_rows by lia.
  rewrite (filter_ext _ (type_filter (Some "servo")))
    by (intros r; now rewrite !andb_true_r).
  rewrite C, app_assoc, filter_app.
  assert (Fm : filter (type_filter (Some "servo")) (logColl w ++ more)
               = filter (type_filter (Some "servo")) (logColl w)).
  { rewrite filter_app.
    replace (filter (type_filter (Some "servo")) more) with (@nil LogRecord);
      [apply app_nil_r|].
    symmetry; clear C; induction Hmore as [|r more Hr _ IH]; auto.
    simpl; unfold type_filter at 1; simpl; rewrite Hr; exact IH. }
  rewrite Fm; cbn [filter type_filter given negb String.eqb Ascii.eqb Bool.eqb
                   to_string log_type rec andb].
  rewrite sort_desc_snoc; [reflexivity|].
  clear - Hold; induction Hold as [|r l Hr Hl IH]; simpl; [constructor|].
  destruct (type_filter (Some "servo") r); [constructor|]; auto.
Qed.

Lemma servo_command_is_logged_witness :
  exists r,
    fst (fst (get_logs (fun _ => None)
                (mkLogsQuery (Some "servo") (Some "1") None None None)
                (settle_all
                   (combine (started (post_servo 6 (VNum (of_Z 90))
                                        five_readings))
                      [mkOutcome 7 false false true;
                       mkOutcome 8 true true true])
                   (world (post_servo 6 (VNum (of_Z 90)) five_readings)))))
    = mkResponse 200 (Rows [r]) /\
    log_timestamp r = 6%Z /\ log_data r = [("position", VNum (of_Z 90))].
Proof.
  destruct (servo_command_is_logged (fun _ => None) 6 (VNum (of_Z 90))
              five_readings (mkOutcome 7 false false true)
              (mkOutcome 8 true true true) eq_refl)
    as (r & E & _ & T & D).
  - vm_compute; repeat constructor.
  - exists r; split; [exact (f_equal (fun x => fst (fst x)) E)|auto].
Defined.

(** X19: for plants and queries written in code units below 256 (the
    strings of this development, where [toLowerCase] goes unit by unit),
    the plant search of the dashboard shows every plant for an empty
    query, does not depend on the case of the query, and never hides a
    plant whose name, location or type contains the query as typed. *)
Theorem plant_search (plants : list Page.Plant) (q : string) :
  Page.filteredPlants plants "" = plants /\
  Page.filteredPlants plants (Page.toLowerCase q)
  = Page.filteredPlants plants q /\
  (forall p, In p plants ->
     (Page.includes_str q (Page.plant_name p)
      || Page.includes_str q (Page.plant_location p)
      || Page.includes_str q (Page.plant_type p))%bool = true ->
     In p (Page.filteredPlants plants q)).
Proof.
  assert (Idem : forall s, Page.toLowerCase (Page.toLowerCase s)
                           = Page.toLowerCase s).
  { induction s as [|c s IH]; simpl; [reflexivity|].
    rewrite IH; f_equal.
    destruct c as [[|] [|] [|] [|] [|] [|] [|] [|]]; reflexivity. }
  assert (Pre : forall a s, Page.starts_with a s = true ->
                  Page.starts_with (Page.toLowerCase a) (Page.toLowerCase s)
                  = true).
  { induction a as [|x a IH]; intros [|y s]; simpl; auto.
    intros H; apply andb_true_iff in H; destruct H as [Hxy Hs].
    apply Ascii.eqb_eq in Hxy; subst y.
    now rewrite Ascii.eqb_refl, IH. }
  assert (Sub : forall a s, Page.includes_str a s = true ->
                  Page.includes_str (Page.toLowerCase a) (Page.toLowerCase s)
                  = true).
  { intros a s; induction s as [|y s IH]; simpl.
    - rewrite !orb_false_r; apply (Pre a "").
    - intros H; apply orb_true_iff in H; destruct H as [H|H].
      + apply (Pre a (String y s)) in H; simpl in H.
        now rewrite H.
      + rewrite (IH H); apply orb_true_r. }
  split; [|split].
  - unfold Page.filteredPlants; induction plants as [|p l IH]; simpl; auto.
    unfold Page.matches at 1; simpl.
    assert (E : forall s, Page.includes_str "" s = true)
      by (intros [|? ?]; reflexivity).
    rewrite E; simpl; now rewrite IH.
  - unfold Page.filteredPlants; apply filter_ext; intros p.
    unfold Page.matches; now rewrite Idem.
  - intros p Hin H; unfold Page.filteredPlants; apply filter_In.
    split; [assumption|]; unfold Page.matches.
    apply orb_true_iff in H; destruct H as [H|H];
      [apply orb_true_iff in H; destruct H as [H|H]|];
      rewrite (Sub _ _ H); rewrite ?orb_true_r; reflexivity.
Qed.

End Extras.
